(** * Game Art Metadata Assistant: a shallow embedding and its properties

    The development follows the TypeScript sources:
    - [types.ts]: [AppStatus], [ImageMetadata], [ImageFile];
    - the Gemini service: [analyzeImageAndSuggestMetadata] (response
      validation and filename clean-up);
    - the [App] component: [toUcs2Bytes], the handlers that update the
      [imageFiles] collection, and [processAndDownloadAll];
    - the [ImageResultCard] component: the field and tag editors.

    The first part holds the model, the second part the properties. *)

From Stdlib Require Import ZArith Lia Bool String Ascii.
From stdpp Require Import gmap list.

Local Open Scope Z_scope.

(* ===================================================================== *)
(** * Part 1: the model *)
(* ===================================================================== *)

(** ** JavaScript strings

    A JavaScript string is a sequence of UTF-16 code units; [charCodeAt]
    returns a code unit as an integer in [0, 65535]. *)

Definition jsstring := list Z.

(** A string literal of the source, all of whose characters are ASCII. *)
Definition lit (s : string) : jsstring :=
  map (fun a : ascii => Z.of_N (N_of_ascii a)) (list_ascii_of_string s).

Definition code_unit (c : Z) : Prop := 0 <= c < 65536.

(** The characters matched by [\s], which are also the ones [trim]
    strips: WhiteSpace and LineTerminator of ECMAScript. *)
Definition is_ws (c : Z) : bool :=
  ((9 <=? c) && (c <=? 13)) || (c =? 32) || (c =? 160) || (c =? 5760)
  || ((8192 <=? c) && (c <=? 8202)) || (c =? 8232) || (c =? 8233)
  || (c =? 8239) || (c =? 8287) || (c =? 12288) || (c =? 65279).

Definition is_backtick (c : Z) : bool := c =? 96.
Definition is_hyphen (c : Z) : bool := c =? 45.
Definition is_comma (c : Z) : bool := c =? 44.

(** The class [[a-z0-9-]]. *)
Definition is_kebab (c : Z) : bool :=
  ((97 <=? c) && (c <=? 122)) || ((48 <=? c) && (c <=? 57)) || (c =? 45).

Fixpoint takeWhile {A} (p : A -> bool) (l : list A) : list A :=
  match l with
  | [] => []
  | x :: r => if p x then x :: takeWhile p r else []
  end.

Fixpoint dropWhile {A} (p : A -> bool) (l : list A) : list A :=
  match l with
  | [] => []
  | x :: r => if p x then dropWhile p r else l
  end.

(** [String.prototype.trim]. *)
Definition trim (s : jsstring) : jsstring :=
  rev (dropWhile is_ws (rev (dropWhile is_ws s))).

(** [s.split(',')]: the pieces between the separators; one piece more
    than there are separators, so never the empty array. *)
Fixpoint split (sep : Z -> bool) (s : jsstring) : list jsstring :=
  match s with
  | [] => [[]]
  | c :: r =>
    if sep c then [] :: split sep r
    else match split sep r with
         | p :: ps => (c :: p) :: ps
         | [] => [[c]]
         end
  end.

(** [parts.join(sep)]. *)
Fixpoint join (sep : jsstring) (parts : list jsstring) : jsstring :=
  match parts with
  | [] => []
  | [p] => p
  | p :: ps => p ++ sep ++ join sep ps
  end.

(** [s.startsWith(prefix)]. *)
Fixpoint startsWith (prefix s : jsstring) : bool :=
  match prefix, s with
  | [], _ => true
  | a :: p, b :: r => (a =? b) && startsWith p r
  | _ :: _, [] => false
  end.

(** ** Global regular-expression replacement

    [s.replace(re, repl)] with the [g] flag scans [s] from the left: where
    [re] matches at the current position the match is replaced by [repl]
    and the scan resumes after it, otherwise the code unit is copied.  The
    expressions of the source never match the empty string; [re_match s]
    is the length of the match anchored at the start of [s], and [0] when
    there is none.  [skip] counts the code units of the current match that
    are still to be passed over. *)

Fixpoint replace_g (re_match : jsstring -> nat) (repl : jsstring)
    (skip : nat) (s : jsstring) : jsstring :=
  match s with
  | [] => []
  | c :: r =>
    match skip with
    | S k => replace_g re_match repl k r
    | O =>
      match re_match s with
      | O => c :: replace_g re_match repl 0 r
      | S k => repl ++ replace_g re_match repl k r
      end
    end
  end.

Definition replace (re_match : jsstring -> nat) (repl s : jsstring) : jsstring :=
  replace_g re_match repl 0 s.

(** A single character of a class, as in [/`/] and [/[^a-z0-9-]/]. *)
Definition re_class (cls : Z -> bool) (s : jsstring) : nat :=
  match s with
  | c :: _ => if cls c then 1%nat else 0%nat
  | [] => 0%nat
  end.

(** One or more characters of a class, greedy, as in [/\s+/]. *)
Definition re_plus (cls : Z -> bool) (s : jsstring) : nat :=
  length (takeWhile cls s).

(** [/--+/]: a hyphen followed by one or more hyphens, greedy. *)
Definition re_hyphens (s : jsstring) : nat :=
  match s with
  | c :: r =>
    if is_hyphen c then
      match re_plus is_hyphen r with
      | O => 0%nat
      | S k => S (S k)
      end
    else 0%nat
  | [] => 0%nat
  end.

(** ** Filename clean-up of [analyzeImageAndSuggestMetadata]

    [toLowerCase] is the built-in of the language (it depends on the
    Unicode case tables and is taken as a parameter). *)

Section Normalize.
Variable toLowerCase : jsstring -> jsstring.

Definition normalize_filename (filename : jsstring) : jsstring :=
  replace re_hyphens (lit "-")
    (replace (re_class (fun c => negb (is_kebab c))) []
       (replace (re_plus is_ws) (lit "-")
          (replace (re_class is_backtick) []
             (toLowerCase filename)))).
End Normalize.

(** Lowercasing restricted to the ASCII letters; it agrees with the
    built-in on ASCII input and is used to run the model on examples. *)
Definition ascii_toLowerCase (s : jsstring) : jsstring :=
  map (fun c => if (65 <=? c) && (c <=? 90) then c + 32 else c) s.

(** *** The clean-up as the specification words it *)

(** The maximal runs of [s]: consecutive characters that are all inside
    the class, or all outside of it. *)
Fixpoint runs (cls : Z -> bool) (s : jsstring) : list (bool * jsstring) :=
  match s with
  | [] => []
  | c :: r =>
    match runs cls r with
    | (b, run) :: rest =>
      if Bool.eqb b (cls c) then (b, c :: run) :: rest
      else (cls c, [c]) :: (b, run) :: rest
    | [] => [(cls c, [c])]
    end
  end.

(** Replace each maximal run of [cls] of at least [least] characters by
    [repl]. *)
Definition collapse_runs (cls : Z -> bool) (least : nat) (repl s : jsstring)
    : jsstring :=
  concat (map (fun br : bool * jsstring =>
                 if fst br && (least <=? length (snd br))%nat
                 then repl else snd br)
              (runs cls s)).

Definition delete_chars (cls : Z -> bool) (s : jsstring) : jsstring :=
  List.filter (fun c => negb (cls c)) s.

Definition spec_normalize (toLowerCase : jsstring -> jsstring)
    (s : jsstring) : jsstring :=
  collapse_runs is_hyphen 2 (lit "-")
    (delete_chars (fun c => negb (is_kebab c))
       (collapse_runs is_ws 1 (lit "-")
          (delete_chars is_backtick (toLowerCase s)))).

(** No two hyphens next to each other. *)
Fixpoint no_adjacent_hyphens (s : jsstring) : bool :=
  match s with
  | c :: (d :: _) as r =>
    negb (is_hyphen c && is_hyphen d) && no_adjacent_hyphens r
  | _ => true
  end.

Definition normalized (s : jsstring) : bool :=
  forallb is_kebab s && no_adjacent_hyphens s.

(** ** Values of the language, as [JSON.parse] produces them

    The service applies two operations to a number: the conversion to a
    boolean, and a method call that a number does not have.  A number is
    therefore kept as the outcome of the former: whether it is neither
    zero nor [NaN]. *)

#[warnings="-register-all"]
Inductive value :=
| VUndefined
| VNull
| VBool (b : bool)
| VNum (nonzero : bool)
| VStr (s : jsstring)
| VArr (elems : list value)
| VObj (props : list (jsstring * value)).

(** What a [try] block can end with.  [Error] is an object built with
    [new Error(message)]; [Thrown] is any other thrown value, such as the
    failure of the call to the service. *)
Inductive exn :=
| SyntaxError
| TypeError
| Error (message : jsstring)
| Thrown.

(** A small error monad for code that may throw. *)
Definition throws (A : Type) : Type := exn + A.
Definition ret {A} (a : A) : throws A := inr a.
Definition throw {A} (e : exn) : throws A := inl e.
Definition bind {A B} (m : throws A) (k : A -> throws B) : throws B :=
  match m with
  | inl e => inl e
  | inr a => k a
  end.

Notation "'let!' x ':=' m 'in' k" := (bind m (fun x => k))
  (at level 10, x name, m at level 100, k at level 200).

(** The conversion to a boolean made by [!] and [||]. *)
Definition truthy (v : value) : bool :=
  match v with
  | VUndefined | VNull => false
  | VBool b => b
  | VNum nonzero => nonzero
  | VStr s => negb (bool_decide (s = []))
  | VArr _ | VObj _ => true
  end.

Fixpoint lookup_prop (key : jsstring) (props : list (jsstring * value))
    : option value :=
  match props with
  | [] => None
  | (k, v) :: r => if bool_decide (k = key) then Some v else lookup_prop key r
  end.

(** The property read [v.key], for the four names the service reads
    ([filename], [title], [description], [tags]): reading from [null] or
    [undefined] throws, a primitive or an array has no such property. *)
Definition get (v : value) (key : jsstring) : throws value :=
  match v with
  | VUndefined | VNull => throw TypeError
  | VObj props => ret (default VUndefined (lookup_prop key props))
  | _ => ret VUndefined
  end.

Fixpoint assign_prop (key : jsstring) (x : value)
    (props : list (jsstring * value)) : list (jsstring * value) :=
  match props with
  | [] => [(key, x)]
  | (k, v) :: r =>
    if bool_decide (k = key) then (k, x) :: r
    else (k, v) :: assign_prop key x r
  end.

(** The assignment [v.key = x] to an object; module code is strict, so
    assigning to a property of a primitive throws.  (The service assigns
    only to a value whose [filename] is truthy, which is an object.) *)
Definition set (v : value) (key : jsstring) (x : value) : throws value :=
  match v with
  | VObj props => ret (VObj (assign_prop key x props))
  | _ => throw TypeError
  end.

Definition isArray (v : value) : bool :=
  match v with
  | VArr _ => true
  | _ => false
  end.

Definition invalid_structure : exn :=
  Error (lit "AI returned an invalid data structure.").
Definition parse_message : jsstring :=
  lit "Could not parse the AI's response. Please try again.".
Definition analyze_message : jsstring :=
  lit "Could not analyze the image. Please try again or use a different image.".

(** ** The Gemini service: [analyzeImageAndSuggestMetadata]

    [JSON_parse] is the built-in ([None] when it throws a [SyntaxError]);
    [response] is what [ai.models.generateContent] gave: the text of the
    response, or the exception of a failed call. *)

Section Gemini.
Variable toLowerCase : jsstring -> jsstring.
Variable JSON_parse : jsstring -> option value.

(** The body of the [try] block, from [response.text.trim()] on. *)
Definition analyze_body (response : throws jsstring) : throws value :=
  let! text := (let! t := response in ret (trim t)) in
  let! metadata := match JSON_parse text with
                   | Some v => ret v
                   | None => throw SyntaxError
                   end in
  let! filename := get metadata (lit "filename") in
  let! bad := (if negb (truthy filename) then ret true else
               let! title := get metadata (lit "title") in
               if negb (truthy title) then ret true else
               let! description := get metadata (lit "description") in
               if negb (truthy description) then ret true else
               let! tags := get metadata (lit "tags") in
               ret (negb (isArray tags))) in
  if bad : bool then throw invalid_structure else
  let! cleaned := match filename with
                  | VStr s => ret (VStr (normalize_filename toLowerCase s))
                  | _ => throw TypeError
                  end in
  set metadata (lit "filename") cleaned.

(** The [catch] block: a [SyntaxError] is reported as a parse failure,
    everything else with the generic message. *)
Definition analyzeImageAndSuggestMetadata (response : throws jsstring)
    : throws value :=
  match analyze_body response with
  | inr metadata => ret metadata
  | inl SyntaxError => throw (Error parse_message)
  | inl _ => throw (Error analyze_message)
  end.
End Gemini.

(** *** The validation as the specification words it *)

Definition has_prop (v : value) (key : jsstring) : bool :=
  match v with
  | VObj props => bool_decide (is_Some (lookup_prop key props))
  | _ => false
  end.

Definition is_string (v : value) : bool :=
  match v with
  | VStr _ => true
  | _ => false
  end.

Definition is_string_array (v : value) : bool :=
  match v with
  | VArr elems => forallb is_string elems
  | _ => false
  end.

(** All four fields are present and [tags] is a sequence of strings. *)
Definition spec_shape_ok (v : value) : bool :=
  has_prop v (lit "filename") && has_prop v (lit "title")
  && has_prop v (lit "description") && has_prop v (lit "tags")
  && match v with
     | VObj props =>
       is_string_array (default VUndefined (lookup_prop (lit "tags") props))
     | _ => false
     end.

(** ** [types.ts] *)

Inductive AppStatus := IDLE | LOADING | SUCCESS | ERROR.

Record ImageMetadata := {
  filename : jsstring;
  title : jsstring;
  description : jsstring;
  tags : list jsstring
}.

(** The browser's [File], as far as the source reads it. *)
Record File := {
  name : jsstring;
  type : jsstring
}.

Record ImageFile := {
  id : jsstring;
  file : File;
  previewUrl : jsstring;
  metadata : option ImageMetadata;
  status : AppStatus;
  error : option jsstring
}.

Definition AppStatus_eqb (a b : AppStatus) : bool :=
  match a, b with
  | IDLE, IDLE | LOADING, LOADING | SUCCESS, SUCCESS | ERROR, ERROR => true
  | _, _ => false
  end.

(** [Partial<ImageFile>], for the fields the handlers pass: an absent
    field leaves the record's value, a present one replaces it (by [null]
    too). *)
Record Partial_ImageFile := {
  set_metadata : option (option ImageMetadata);
  set_status : option AppStatus;
  set_error : option (option jsstring)
}.

(** [{ ...f, ...updates }] *)
Definition spread (f : ImageFile) (updates : Partial_ImageFile) : ImageFile :=
  {| id := id f;
     file := file f;
     previewUrl := previewUrl f;
     metadata := default (metadata f) (set_metadata updates);
     status := default (status f) (set_status updates);
     error := default (error f) (set_error updates) |}.

(** [imageFiles.find(f => f.id === id)] *)
Definition find_by_id (i : jsstring) (imageFiles : list ImageFile)
    : option ImageFile :=
  List.find (fun f => bool_decide (id f = i)) imageFiles.

(** ** The [App] component: updates of the [imageFiles] state

    Each function below is the argument of one [setImageFiles] call: it
    maps the previous collection to the next one. *)

(** [handleFileSelect]; [fresh k] is what [crypto.randomUUID()] and
    [URL.createObjectURL] return for the [k]-th image selected. *)
Definition handleFileSelect (selectedFiles : list File)
    (fresh : nat -> jsstring * jsstring) (prev : list ImageFile)
    : list ImageFile :=
  let newFiles :=
    imap (fun k f =>
            {| id := fst (fresh k);
               file := f;
               previewUrl := snd (fresh k);
               metadata := None;
               status := IDLE;
               error := None |})
         (List.filter (fun f => startsWith (lit "image/") (type f))
                      selectedFiles) in
  prev ++ newFiles.

Definition updateImageFile (i : jsstring) (updates : Partial_ImageFile)
    (prev : list ImageFile) : list ImageFile :=
  map (fun f => if bool_decide (id f = i) then spread f updates else f) prev.

(** What the [await] in [handleGenerateMetadataForOne] ends with: the
    metadata, or a thrown value, which is an [Error] object or not. *)
Inductive thrown :=
| ErrorObject (message : jsstring)
| NotAnError.

Definition errorMessage (err : thrown) : jsstring :=
  match err with
  | ErrorObject message => message
  | NotAnError => lit "An unknown error occurred."
  end.

(** The three updates made by [handleGenerateMetadataForOne]. *)
Definition analysis_started (i : jsstring) : list ImageFile -> list ImageFile :=
  updateImageFile i
    {| set_status := Some LOADING; set_error := Some None;
       set_metadata := None |}.

Definition analysis_succeeded (i : jsstring) (md : ImageMetadata)
    : list ImageFile -> list ImageFile :=
  updateImageFile i
    {| set_status := Some SUCCESS; set_metadata := Some (Some md);
       set_error := None |}.

Definition analysis_failed (i : jsstring) (err : thrown)
    : list ImageFile -> list ImageFile :=
  updateImageFile i
    {| set_status := Some ERROR; set_error := Some (Some (errorMessage err));
       set_metadata := None |}.

Definition handleDeleteFile (i : jsstring) (prev : list ImageFile)
    : list ImageFile :=
  List.filter (fun f => negb (bool_decide (id f = i))) prev.

Definition handleReset (prev : list ImageFile) : list ImageFile := [].

Definition handleMetadataChange (i : jsstring) (newMetadata : ImageMetadata)
    : list ImageFile -> list ImageFile :=
  updateImageFile i
    {| set_metadata := Some (Some newMetadata); set_status := None;
       set_error := None |}.

(** ** The [ImageResultCard] component: the editors

    Both return early when the card's item has no metadata. *)

Inductive field := Filename | Title | Description.

(** [handleInputChange]: [{ ...metadata, [e.target.name]: e.target.value }] *)
Definition handleInputChange (imageFile : ImageFile) (fld : field)
    (v : jsstring) : option ImageMetadata :=
  match metadata imageFile with
  | None => None
  | Some md =>
    Some match fld with
         | Filename => {| filename := v; title := title md;
                          description := description md; tags := tags md |}
         | Title => {| filename := filename md; title := v;
                       description := description md; tags := tags md |}
         | Description => {| filename := filename md; title := title md;
                             description := v; tags := tags md |}
         end
  end.

(** [value.split(',').map(tag => tag.trim()).filter(Boolean)] *)
Definition parse_tags (input : jsstring) : list jsstring :=
  List.filter (fun tag => negb (bool_decide (tag = [])))
              (map trim (split is_comma input)).

Definition handleTagsChange (imageFile : ImageFile) (v : jsstring)
    : option ImageMetadata :=
  match metadata imageFile with
  | None => None
  | Some md =>
    Some {| filename := filename md; title := title md;
            description := description md; tags := parse_tags v |}
  end.

Inductive edit :=
| EditField (fld : field) (v : jsstring)
| EditTags (v : jsstring).

(** An edit made in the card of the [k]-th item: the card's handler
    builds the new metadata from the item it shows, and
    [handleMetadataChange] stores it under the item's identity. *)
Definition card_edit (k : nat) (e : edit) (prev : list ImageFile)
    : list ImageFile :=
  match prev !! k with
  | None => prev
  | Some imageFile =>
    match match e with
          | EditField fld v => handleInputChange imageFile fld v
          | EditTags v => handleTagsChange imageFile v
          end with
    | None => prev
    | Some newMetadata => handleMetadataChange (id imageFile) newMetadata prev
    end
  end.

(** ** Bulk tags: [handleApplyCustomTags] *)

(** [new Set(iterable)] keeps its elements in insertion order; adding an
    element that is already there changes nothing. *)
Definition Set_add (s : list jsstring) (x : jsstring) : list jsstring :=
  if bool_decide (x ∈ s) then s else s ++ [x].

Definition new_Set (l : list jsstring) : list jsstring :=
  fold_left Set_add l [].

Definition apply_tags (newTags : list jsstring) (f : ImageFile) : ImageFile :=
  match status f, metadata f with
  | SUCCESS, Some md =>
    let combinedTags := new_Set (tags md ++ newTags) in
    {| id := id f; file := file f; previewUrl := previewUrl f;
       metadata := Some {| filename := filename md; title := title md;
                           description := description md;
                           tags := combinedTags |};
       status := status f; error := error f |}
  | _, _ => f
  end.

Definition handleApplyCustomTags (customTagsInput : jsstring)
    (prevFiles : list ImageFile) : list ImageFile :=
  if bool_decide (trim customTagsInput = []) then prevFiles else
  let newTags := parse_tags customTagsInput in
  if (length newTags =? 0)%nat then prevFiles else
  map (apply_tags newTags) prevFiles.

(** *** Merging as the specification words it: duplicates removed, each
    element kept where it occurs first. *)
Fixpoint dedup_first (l : list jsstring) : list jsstring :=
  match l with
  | [] => []
  | x :: r => x :: List.filter (fun y => negb (bool_decide (y = x))) (dedup_first r)
  end.

(** ** The item collection as a transition system

    An event is one [setImageFiles] call of a handler; between two events
    the collection can be observed (rendered). *)

Inductive event :=
| FilesSelected (selectedFiles : list File) (fresh : nat -> jsstring * jsstring)
| AnalysisStarted (i : jsstring)
| AnalysisSucceeded (i : jsstring) (md : ImageMetadata)
| AnalysisFailed (i : jsstring) (err : thrown)
| CardEdited (k : nat) (e : edit)
| FileDeleted (i : jsstring)
| ResetClicked
| CustomTagsApplied (customTagsInput : jsstring).

Definition step (prev : list ImageFile) (ev : event) : list ImageFile :=
  match ev with
  | FilesSelected selectedFiles fresh => handleFileSelect selectedFiles fresh prev
  | AnalysisStarted i => analysis_started i prev
  | AnalysisSucceeded i md => analysis_succeeded i md prev
  | AnalysisFailed i err => analysis_failed i err prev
  | CardEdited k e => card_edit k e prev
  | FileDeleted i => handleDeleteFile i prev
  | ResetClicked => handleReset prev
  | CustomTagsApplied customTagsInput =>
    handleApplyCustomTags customTagsInput prev
  end.

Definition run (evs : list event) (st : list ImageFile) : list ImageFile :=
  fold_left step evs st.

(** Every item with identity [i] satisfies [p]. *)
Definition all_with_id (i : jsstring) (p : ImageFile -> bool)
    (st : list ImageFile) : bool :=
  forallb (fun f => implb (bool_decide (id f = i)) (p f)) st.

(** A successful analysis is delivered to an item that is still loading:
    no other analysis of the same item has completed since this one
    started. *)
Definition delivery_ok (st : list ImageFile) (ev : event) : bool :=
  match ev with
  | AnalysisSucceeded i _ =>
    all_with_id i (fun f => AppStatus_eqb (status f) LOADING) st
  | _ => true
  end.

Fixpoint delivered_while_loading (st : list ImageFile) (evs : list event)
    : bool :=
  match evs with
  | [] => true
  | ev :: r => delivery_ok st ev && delivered_while_loading (step st ev) r
  end.

(** ** Batch orchestration: [handleGenerateAllMetadata]

    [analyze k file] is the outcome of the [k]-th call of
    [analyzeImageAndSuggestMetadata] made by the loop.  The handlers are
    asynchronous: they are modelled by the events they produce, in the
    order in which they produce them. *)

Section Orchestrator.
Variable analyze : nat -> File -> thrown + ImageMetadata.

(** [imageFiles] is the collection the callback closed over. *)
Definition handleGenerateMetadataForOne (imageFiles : list ImageFile)
    (k : nat) (i : jsstring) : list event :=
  match find_by_id i imageFiles with
  | None => []
  | Some imageFile =>
    [ AnalysisStarted i;
      match analyze k (file imageFile) with
      | inr md => AnalysisSucceeded i md
      | inl err => AnalysisFailed i err
      end ]
  end.

Definition needs_analysis (s : AppStatus) : bool :=
  AppStatus_eqb s IDLE || AppStatus_eqb s ERROR.

(** The [for ... of] loop over the closed-over collection; [k] counts
    the analyses made so far. *)
Fixpoint generateAll_loop (imageFiles rest : list ImageFile) (k : nat)
    : list event :=
  match rest with
  | [] => []
  | imageFile :: rest' =>
    if needs_analysis (status imageFile) then
      handleGenerateMetadataForOne imageFiles k (id imageFile)
        ++ generateAll_loop imageFiles rest' (S k)
    else generateAll_loop imageFiles rest' k
  end.

Definition handleGenerateAllMetadata (imageFiles : list ImageFile)
    : list event :=
  generateAll_loop imageFiles imageFiles 0.
End Orchestrator.

(** The identities for which an analysis is started, in order. *)
Definition started (evs : list event) : list jsstring :=
  omap (fun ev => match ev with AnalysisStarted i => Some i | _ => None end) evs.

(** Each analysis that starts completes before anything else happens. *)
Fixpoint one_at_a_time (evs : list event) : bool :=
  match evs with
  | [] => true
  | AnalysisStarted i :: AnalysisSucceeded j _ :: r
  | AnalysisStarted i :: AnalysisFailed j _ :: r =>
    bool_decide (i = j) && one_at_a_time r
  | _ => false
  end.

(** ** Export: [toUcs2Bytes] and [processAndDownloadAll] *)

(** The [for] loop pushes two bytes per code unit onto [bytes]. *)
Definition toUcs2Bytes (str : jsstring) : list Z :=
  let bytes :=
    fold_left (fun bytes c =>
                 bytes ++ [Z.land c 255; Z.land (Z.shiftr c 8) 255])
              str [] in
  bytes ++ [0; 0].

(** The [0th] IFD handed to [piexif.dump]. *)
Record Zeroth := {
  ImageDescription : jsstring;
  XPTitle : list Z;
  XPAuthor : list Z;
  XPComment : list Z;
  XPKeywords : list Z
}.

Definition zeroth_of (md : ImageMetadata) : Zeroth :=
  {| ImageDescription := description md;
     XPTitle := toUcs2Bytes (title md);
     XPAuthor := toUcs2Bytes (lit "Game Art Assistant");
     XPComment := toUcs2Bytes (description md);
     XPKeywords := toUcs2Bytes (join (lit ";") (tags md)) |}.

Definition Blob := list Z.

(** What [processAndDownloadAll] ends with. *)
Inductive export_outcome :=
| LibraryAlert
| Unhandled
| ZipAlert (log : list jsstring)
| Download (zip : gmap jsstring Blob) (log : list jsstring).

Section ExportPipeline.
(** The canvas conversion of an item's preview to a JPEG data URL: the
    promise resolves, or rejects ([None]). *)
Variable toJpeg : jsstring -> option jsstring.
(** [piexif.dump], [piexif.insert], [fetch] and [blob] on the data URL:
    the bytes to store, or [None] when one of them throws. *)
Variable embed : Zeroth -> jsstring -> option Blob.

(** The [for ... of] loop.  [zip.file(name, blob)] adds the entry
    [name], or replaces the entry of that name; [log] collects the file
    names reported by [console.error].  The result is [None] when an
    exception leaves the loop. *)
Fixpoint export_loop (filesToDownload : list ImageFile)
    (zip : gmap jsstring Blob) (log : list jsstring)
    : option (gmap jsstring Blob * list jsstring) :=
  match filesToDownload with
  | [] => Some (zip, log)
  | imageFile :: rest =>
    match metadata imageFile with
    | None => export_loop rest zip log
    | Some md =>
      let newFilenameWithExt := filename md ++ lit ".jpg" in
      match toJpeg (previewUrl imageFile) with
      | None => None
      | Some imageDataUrl =>
        match embed (zeroth_of md) imageDataUrl with
        | Some blob =>
          export_loop rest (<[newFilenameWithExt := blob]> zip) log
        | None => export_loop rest zip (log ++ [name (file imageFile)])
        end
      end
    end
  end.

Definition exportable (f : ImageFile) : bool :=
  AppStatus_eqb (status f) SUCCESS && bool_decide (is_Some (metadata f)).

(** The outcome, and the value of [isZipping] at the end.
    [libraries_loaded] is the check on [JSZip] and [piexif];
    [generateAsync_ok] tells whether [zip.generateAsync] succeeds. *)
Definition processAndDownloadAll (libraries_loaded generateAsync_ok : bool)
    (imageFiles : list ImageFile) (isZipping : bool)
    : export_outcome * bool :=
  if negb libraries_loaded then (LibraryAlert, isZipping) else
  let filesToDownload := List.filter exportable imageFiles in
  match export_loop filesToDownload ∅ [] with
  | None => (Unhandled, true)
  | Some (zip, log) =>
    if generateAsync_ok then (Download zip log, false)
    else (ZipAlert log, false)
  end.

(** The entries of the items that are converted and embedded without a
    failure, in collection order. *)
Definition embedded_entry (f : ImageFile) : option (jsstring * Blob) :=
  md ← metadata f;
  imageDataUrl ← toJpeg (previewUrl f);
  blob ← embed (zeroth_of md) imageDataUrl;
  Some (filename md ++ lit ".jpg", blob).

Definition embedded_entries (fs : list ImageFile) : list (jsstring * Blob) :=
  omap embedded_entry fs.
End ExportPipeline.


(** The head of a string satisfies [p]. *)
Definition head_is (p : Z -> bool) (s : jsstring) : bool :=
  match s with
  | c :: _ => p c
  | [] => false
  end.

(** A run of the class of at least [least] characters, greedy: [/\s+/]
    is the case [least = 1], [/--+/] the case [least = 2]. *)
Definition re_run (cls : Z -> bool) (least : nat) (s : jsstring) : nat :=
  let n := length (takeWhile cls s) in
  if (least <=? n)%nat then n else 0%nat.

(** What replacing the runs does with a string [c :: r] that starts
    inside a run. *)
Definition run_head (cls : Z -> bool) (least : nat) (repl : jsstring)
    (c : Z) (r : jsstring) : jsstring :=
  if (least <=? S (length (takeWhile cls r)))%nat then repl
  else c :: takeWhile cls r.

(** The bulk merge as the specification words it. *)
Definition spec_merge (newTags : list jsstring) (f : ImageFile) : ImageFile :=
  match status f with
  | SUCCESS =>
    match metadata f with
    | Some md =>
      {| id := id f; file := file f; previewUrl := previewUrl f;
         metadata := Some {| filename := filename md; title := title md;
                             description := description md;
                             tags := dedup_first (tags md ++ newTags) |};
         status := status f; error := error f |}
    | None => f
    end
  | _ => f
  end.

(** A tag is trimmed: not empty, no whitespace at either end. *)
Definition trimmed (t : jsstring) : Prop :=
  t <> [] /\ head_is is_ws t = false /\ head_is is_ws (rev t) = false.

(** The value of [v.key] for a [v] other than [null] and [undefined]. *)
Definition prop (v : value) (key : jsstring) : value :=
  match v with
  | VObj props => default VUndefined (lookup_prop key props)
  | _ => VUndefined
  end.

(** The condition of the [if] that guards the [throw]. *)
Definition rejected (v : value) : bool :=
  negb (truthy (prop v (lit "filename")))
  || negb (truthy (prop v (lit "title")))
  || negb (truthy (prop v (lit "description")))
  || negb (isArray (prop v (lit "tags"))).

(** Data for the examples. *)
Definition sample_response (fname : jsstring) (tag_list : list value) : value :=
  VObj [ (lit "filename", VStr fname); (lit "title", VStr (lit "Elven Archer"));
         (lit "description", VStr (lit "An archer in a forest."));
         (lit "tags", VArr tag_list) ].

(** A parser that stands for one fixed response. *)
Definition parse_const (v : value) (text : jsstring) : option value := Some v.

(** ** Consistency of an item record *)

(** A successful item has metadata and a failed item has a message. *)
Definition status_inv (f : ImageFile) : Prop :=
  (status f = SUCCESS -> metadata f <> None)
  /\ (status f = ERROR -> error f <> None).

(** Only a failed item has a message. *)
Definition error_inv (f : ImageFile) : Prop :=
  error f <> None -> status f = ERROR.

(** The invariant as the specification words it. *)
Definition spec_inv (f : ImageFile) : Prop :=
  (metadata f <> None <-> status f = SUCCESS)
  /\ (error f <> None <-> status f = ERROR).

(** Data for the examples. *)
Definition sample_file (n : jsstring) : File :=
  {| name := n; type := lit "image/png" |}.
Definition sample_fresh (k : nat) : jsstring * jsstring :=
  (lit "id-" ++ [48 + Z.of_nat k], lit "blob:" ++ [48 + Z.of_nat k]).
Definition sample_metadata (fname : jsstring) (tag_list : list jsstring)
    : ImageMetadata :=
  {| filename := fname; title := lit "Elven Archer";
     description := lit "An archer in a forest."; tags := tag_list |}.

(** Sessions for the examples.  One image is uploaded, analysed with
    success and then regenerated: the item is loading again and still
    holds the metadata of the first analysis. *)
Definition regenerate_session : list event :=
  [ FilesSelected [sample_file (lit "a.png")] sample_fresh;
    AnalysisStarted (lit "id-0");
    AnalysisSucceeded (lit "id-0") (sample_metadata (lit "elf") [lit "b"]);
    AnalysisStarted (lit "id-0") ].

(** Two images are uploaded and both analyses fail.  "Generate All"
    starts with the first item; meanwhile "Try Again" is clicked on the
    second, whose analysis is then started a second time by the loop.
    The earlier analysis fails, the later one succeeds. *)
Definition overlap_session : list event :=
  [ FilesSelected [sample_file (lit "a.png"); sample_file (lit "b.png")]
                  sample_fresh;
    AnalysisStarted (lit "id-0");
    AnalysisFailed (lit "id-0") (ErrorObject analyze_message);
    AnalysisStarted (lit "id-1");
    AnalysisFailed (lit "id-1") (ErrorObject analyze_message);
    AnalysisStarted (lit "id-0");
    AnalysisStarted (lit "id-1");
    AnalysisFailed (lit "id-0") (ErrorObject analyze_message);
    AnalysisStarted (lit "id-1");
    AnalysisFailed (lit "id-1") (ErrorObject analyze_message);
    AnalysisSucceeded (lit "id-1") (sample_metadata (lit "orc") [lit "c"]) ].

Definition sample_item (n : nat) (fname : jsstring)
    (md : option ImageMetadata) (st : AppStatus) (err : option jsstring)
    : ImageFile :=
  {| id := fst (sample_fresh n); file := sample_file fname;
     previewUrl := snd (sample_fresh n);
     metadata := md; status := st; error := err |}.

(** The item an analysis event is about. *)
Definition analysis_of (ev : event) : option jsstring :=
  match ev with
  | AnalysisStarted i | AnalysisSucceeded i _ | AnalysisFailed i _ => Some i
  | _ => None
  end.


(** Collaborators for the examples: a conversion that fails for the
    preview URLs in [bad] and otherwise returns the URL it was given, an
    embedding that fails for the data URLs in [bad] and otherwise stores
    the encoded keywords. *)
Definition sample_toJpeg (bad : list jsstring) (previewUrl : jsstring)
    : option jsstring :=
  if bool_decide (previewUrl ∈ bad) then None else Some previewUrl.
Definition sample_embed (bad : list jsstring) (z : Zeroth) (url : jsstring)
    : option Blob :=
  if bool_decide (url ∈ bad) then None else Some (XPKeywords z).

(** Two analysed items for the export examples. *)
Definition sample_export (fname0 fname1 : jsstring) : list ImageFile :=
  [ sample_item 0 (lit "a.png")
      (Some (sample_metadata fname0 [lit "b"])) SUCCESS None;
    sample_item 1 (lit "b.png")
      (Some (sample_metadata fname1 [lit "c"])) SUCCESS None ].

(** ** Further parts of the sources *)

(** *** The Gemini service: [fileToGenerativePart]

    [result] is [reader.result] once the read has ended: the data URL of
    the file, or something that is not a string.  The [data] of the part
    is what follows the first comma, up to the next one; it is [undefined]
    ([None]) when the string has no comma. *)
Record inlineData := {
  data : option jsstring;
  mimeType : jsstring
}.

Definition fileToGenerativePart (f : File) (result : option jsstring)
    : inlineData :=
  {| data := match result with
             | Some s => split is_comma s !! 1%nat
             | None => Some []
             end;
     mimeType := type f |}.

(** *** The [App] component: the memoized flags that enable the buttons *)

Definition hasUnprocessedFiles (imageFiles : list ImageFile) : bool :=
  existsb (fun f => AppStatus_eqb (status f) IDLE
                    || AppStatus_eqb (status f) ERROR) imageFiles.

Definition hasSuccessfulFiles (imageFiles : list ImageFile) : bool :=
  existsb (fun f => AppStatus_eqb (status f) SUCCESS) imageFiles.

(** *** Notions used to state the further properties *)

(** An item once its analysis has run from start to end with outcome
    [r]: the two updates of [handleGenerateMetadataForOne] applied to it. *)
Definition settle (f : ImageFile) (r : thrown + ImageMetadata) : ImageFile :=
  match r with
  | inr md =>
    {| id := id f; file := file f; previewUrl := previewUrl f;
       metadata := Some md; status := SUCCESS; error := None |}
  | inl err =>
    {| id := id f; file := file f; previewUrl := previewUrl f;
       metadata := metadata f; status := ERROR;
       error := Some (errorMessage err) |}
  end.

(** The number of items of [l] that "Generate All" analyses. *)
Definition analyses (l : list ImageFile) : nat :=
  length (List.filter (fun f => needs_analysis (status f)) l).

(** The identities that an upload gives to the new items. *)
Definition new_ids (selectedFiles : list File)
    (fresh : nat -> jsstring * jsstring) : list jsstring :=
  map (fun k => fst (fresh k))
      (seq 0 (length (List.filter
                        (fun f => startsWith (lit "image/") (type f))
                        selectedFiles))).

(** [crypto.randomUUID] does its job: at every upload of the session the
    identities handed out are distinct and not in use. *)
Fixpoint uuids_fresh (st : list ImageFile) (evs : list event) : bool :=
  match evs with
  | [] => true
  | ev :: r =>
    match ev with
    | FilesSelected selectedFiles fresh =>
      bool_decide (NoDup (map id st ++ new_ids selectedFiles fresh))
    | _ => true
    end && uuids_fresh (step st ev) r
  end.

(** An item that waits or is being analysed has no error message. *)
Definition waiting_inv (f : ImageFile) : Prop :=
  status f = IDLE \/ status f = LOADING -> error f = None.

(** The file names that the export loop reports: the items that are
    converted and whose embedding throws. *)
Definition embed_failure (toJpeg : jsstring -> option jsstring)
    (embed : Zeroth -> jsstring -> option Blob) (f : ImageFile)
    : option jsstring :=
  md ← metadata f;
  imageDataUrl ← toJpeg (previewUrl f);
  match embed (zeroth_of md) imageDataUrl with
  | Some _ => None
  | None => Some (name (file f))
  end.

Definition embed_failures (toJpeg : jsstring -> option jsstring)
    (embed : Zeroth -> jsstring -> option Blob) (fs : list ImageFile)
    : list jsstring :=
  omap (embed_failure toJpeg embed) fs.

(** A tag that the tag editor shows and reads back unchanged: trimmed and
    without a comma. *)
Definition plain_tag (t : jsstring) : Prop :=
  trimmed t /\ forallb (fun c => negb (is_comma c)) t = true.

(** An item with its metadata replaced. *)
Definition with_metadata (f : ImageFile) (md : ImageMetadata) : ImageFile :=
  {| id := id f; file := file f; previewUrl := previewUrl f;
     metadata := Some md; status := status f; error := error f |}.

(* ===================================================================== *)
(** * Part 2: properties *)
(* ===================================================================== *)

(** ** Regular-expression replacement and runs *)

Lemma takeWhile_dropWhile {A} (p : A -> bool) (l : list A) :
  takeWhile p l ++ dropWhile p l = l.
Proof.
  induction l as [|x r IH]; simpl; [reflexivity|].
  destruct (p x); simpl; [now rewrite IH | reflexivity].
Qed.

Lemma dropWhile_length {A} (p : A -> bool) (l : list A) :
  (length (dropWhile p l) <= length l)%nat.
Proof.
  induction l as [|x r IH]; simpl; [lia|].
  destruct (p x); simpl; lia.
Qed.

Lemma dropWhile_head (p : Z -> bool) (s : jsstring) :
  head_is p (dropWhile p s) = false.
Proof.
  induction s as [|c r IH]; simpl; [reflexivity|].
  destruct (p c) eqn:E; simpl; [exact IH | exact E].
Qed.

Lemma dropWhile_id (p : Z -> bool) (s : jsstring) :
  head_is p s = false -> dropWhile p s = s.
Proof. destruct s as [|c r]; simpl; [reflexivity|]. now intros ->. Qed.

Lemma takeWhile_nil (p : Z -> bool) (s : jsstring) :
  head_is p s = false -> takeWhile p s = [].
Proof. destruct s as [|c r]; simpl; [reflexivity|]. now intros ->. Qed.

Lemma replace_g_ext (m1 m2 : jsstring -> nat) repl :
  (forall s, m1 s = m2 s) ->
  forall s k, replace_g m1 repl k s = replace_g m2 repl k s.
Proof.
  intros E s. induction s as [|c r IH]; intros k; simpl; [reflexivity|].
  destruct k; [|apply IH].
  rewrite E. destruct (m2 (c :: r)); now rewrite IH.
Qed.

(** Passing over the rest of a match. *)
Lemma replace_g_skip m repl (pre rest : jsstring) :
  replace_g m repl (length pre) (pre ++ rest) = replace_g m repl 0 rest.
Proof. induction pre as [|c p IH]; simpl; [reflexivity | exact IH]. Qed.

Lemma re_plus_run cls s : re_plus cls s = re_run cls 1 s.
Proof.
  unfold re_plus, re_run. destruct (takeWhile cls s); reflexivity.
Qed.

Lemma re_hyphens_run s : re_hyphens s = re_run is_hyphen 2 s.
Proof.
  unfold re_hyphens, re_run, re_plus. destruct s as [|c r]; simpl; [reflexivity|].
  destruct (is_hyphen c); simpl; [|reflexivity].
  destruct (takeWhile is_hyphen r); reflexivity.
Qed.

Lemma replace_class_delete cls s :
  replace (re_class cls) [] s = delete_chars cls s.
Proof.
  unfold replace, delete_chars.
  induction s as [|c r IH]; simpl; [reflexivity|].
  destruct (cls c); simpl; now rewrite IH.
Qed.

Section Runs.
Variable cls : Z -> bool.
Variable least : nat.
Variable repl : jsstring.
Hypothesis least_pos : (1 <= least)%nat.

Lemma replace_run_out c r :
  cls c = false ->
  replace (re_run cls least) repl (c :: r)
  = c :: replace (re_run cls least) repl r.
Proof.
  intros E. unfold replace. simpl. unfold re_run. simpl. rewrite E. simpl.
  destruct (least <=? 0)%nat eqn:L; [apply Nat.leb_le in L; lia|].
  reflexivity.
Qed.

Lemma replace_run_short s :
  (length (takeWhile cls s) < least)%nat ->
  replace (re_run cls least) repl s
  = takeWhile cls s ++ replace (re_run cls least) repl (dropWhile cls s).
Proof.
  induction s as [|c r IH]; [reflexivity|].
  simpl. destruct (cls c) eqn:E; [|reflexivity].
  simpl. intros L. unfold replace in *. simpl.
  unfold re_run at 1. simpl. rewrite E. simpl.
  destruct (least <=? S (length (takeWhile cls r)))%nat eqn:L';
    [apply Nat.leb_le in L'; lia|].
  f_equal. apply IH. lia.
Qed.

Lemma replace_run_in c r :
  cls c = true ->
  replace (re_run cls least) repl (c :: r)
  = run_head cls least repl c r
      ++ replace (re_run cls least) repl (dropWhile cls r).
Proof.
  intros E. unfold run_head.
  destruct (least <=? S (length (takeWhile cls r)))%nat eqn:L.
  - unfold replace. simpl. unfold re_run at 1. simpl. rewrite E. simpl.
    rewrite L. f_equal.
    rewrite <- (takeWhile_dropWhile cls r) at 2.
    apply replace_g_skip.
  - apply Nat.leb_gt in L.
    rewrite (replace_run_short (c :: r)); simpl; rewrite E; simpl; [reflexivity | lia].
Qed.

Lemma runs_head c r :
  exists run rest, runs cls (c :: r) = (cls c, run) :: rest.
Proof.
  simpl. destruct (runs cls r) as [|[b run] rest]; [eauto|].
  destruct (Bool.eqb b (cls c)) eqn:E; [|eauto].
  apply Bool.eqb_prop in E. subst b. eauto.
Qed.

Lemma runs_in c r :
  cls c = true ->
  runs cls (c :: r) = (true, c :: takeWhile cls r) :: runs cls (dropWhile cls r).
Proof.
  revert c. induction r as [|d r IH]; intros c E.
  - simpl. now rewrite E.
  - destruct (cls d) eqn:D.
    + change (runs cls (c :: d :: r))
        with (match runs cls (d :: r) with
              | (b, run) :: rest =>
                if Bool.eqb b (cls c) then (b, c :: run) :: rest
                else (cls c, [c]) :: (b, run) :: rest
              | [] => [(cls c, [c])]
              end).
      rewrite (IH d D). simpl. rewrite E, D. reflexivity.
    + destruct (runs_head d r) as (run & rest & H).
      change (runs cls (c :: d :: r))
        with (match runs cls (d :: r) with
              | (b, run) :: rest =>
                if Bool.eqb b (cls c) then (b, c :: run) :: rest
                else (cls c, [c]) :: (b, run) :: rest
              | [] => [(cls c, [c])]
              end).
      simpl takeWhile. simpl dropWhile. rewrite D.
      rewrite H. rewrite D, E. reflexivity.
Qed.

Lemma collapse_run_out c r :
  cls c = false ->
  collapse_runs cls least repl (c :: r) = c :: collapse_runs cls least repl r.
Proof.
  intros E. unfold collapse_runs. simpl.
  destruct (runs cls r) as [|[b run] rest]; simpl.
  - now rewrite E.
  - rewrite E. destruct b; simpl; reflexivity.
Qed.

Lemma collapse_run_in c r :
  cls c = true ->
  collapse_runs cls least repl (c :: r)
  = run_head cls least repl c r
      ++ collapse_runs cls least repl (dropWhile cls r).
Proof.
  intros E. unfold collapse_runs. rewrite (runs_in c r E). reflexivity.
Qed.

(** The scan of [replace] and the replacement of maximal runs agree. *)
Lemma replace_run_collapse s :
  replace (re_run cls least) repl s = collapse_runs cls least repl s.
Proof.
  remember (length s) as n eqn:Hn.
  assert (Hle : (length s <= n)%nat) by lia. clear Hn.
  revert s Hle. induction n as [|n IH]; intros s Hle.
  - destruct s; [reflexivity | simpl in Hle; lia].
  - destruct s as [|c r]; [reflexivity|]. simpl in Hle.
    destruct (cls c) eqn:E.
    + rewrite (replace_run_in c r E), (collapse_run_in c r E).
      f_equal. apply IH. pose proof (dropWhile_length cls r). lia.
    + rewrite (replace_run_out c r E), (collapse_run_out c r E).
      f_equal. apply IH. lia.
Qed.

(** Nothing changes in a string without a character of the class. *)
Lemma collapse_runs_none s :
  forallb (fun c => negb (cls c)) s = true ->
  collapse_runs cls least repl s = s.
Proof.
  induction s as [|c r IH]; [reflexivity|]. simpl.
  intros [E H]%andb_true_iff. apply negb_true_iff in E.
  rewrite (collapse_run_out c r E). now rewrite IH.
Qed.
End Runs.

(** ** Filename clean-up *)

Lemma is_hyphen_eq c : is_hyphen c = true -> c = 45.
Proof. unfold is_hyphen. apply Z.eqb_eq. Qed.

Lemma kebab_not_backtick c : is_kebab c = true -> is_backtick c = false.
Proof. unfold is_kebab, is_backtick. lia. Qed.

Lemma kebab_not_ws c : is_kebab c = true -> is_ws c = false.
Proof. unfold is_kebab, is_ws. lia. Qed.

Lemma forallb_impl {A} (p q : A -> bool) (l : list A) :
  (forall x, p x = true -> q x = true) ->
  forallb p l = true -> forallb q l = true.
Proof.
  intros H. induction l as [|x r IH]; simpl; [reflexivity|].
  intros [Hx Hr]%andb_true_iff. rewrite (H x Hx). simpl. auto.
Qed.

Lemma delete_chars_keeps cls s :
  forallb (fun c => negb (cls c)) (delete_chars cls s) = true.
Proof.
  unfold delete_chars. induction s as [|c r IH]; simpl; [reflexivity|].
  destruct (cls c) eqn:E; simpl; [exact IH|]. now rewrite E, IH.
Qed.

Lemma delete_chars_none cls s :
  forallb (fun c => negb (cls c)) s = true -> delete_chars cls s = s.
Proof.
  unfold delete_chars. induction s as [|c r IH]; simpl; [reflexivity|].
  intros [E H]%andb_true_iff. rewrite E. now rewrite IH.
Qed.

(** Collapsing hyphens: a string that starts with a hyphen keeps one and
    loses the ones that follow. *)
Lemma collapse_hyphens_in c r :
  is_hyphen c = true ->
  collapse_runs is_hyphen 2 (lit "-") (c :: r)
  = 45 :: collapse_runs is_hyphen 2 (lit "-") (dropWhile is_hyphen r).
Proof.
  intros E. rewrite (collapse_run_in is_hyphen 2 (lit "-") c r E).
  unfold run_head. apply is_hyphen_eq in E. subst c.
  destruct r as [|d r]; [reflexivity|]. simpl.
  destruct (is_hyphen d); reflexivity.
Qed.

Lemma collapse_hyphens_out c r :
  is_hyphen c = false ->
  collapse_runs is_hyphen 2 (lit "-") (c :: r)
  = c :: collapse_runs is_hyphen 2 (lit "-") r.
Proof. apply collapse_run_out. Qed.

Lemma no_adjacent_hyphens_cons c d r :
  no_adjacent_hyphens (c :: d :: r)
  = negb (is_hyphen c && is_hyphen d) && no_adjacent_hyphens (d :: r).
Proof. reflexivity. Qed.

Lemma collapse_hyphens_spec n : forall s,
  (length s <= n)%nat ->
  forallb is_kebab s = true ->
  let out := collapse_runs is_hyphen 2 (lit "-") s in
  forallb is_kebab out = true
  /\ no_adjacent_hyphens out = true
  /\ (head_is is_hyphen s = false -> head_is is_hyphen out = false).
Proof.
  induction n as [|n IH]; intros s Hle Hk.
  - destruct s; [repeat split; auto | simpl in Hle; lia].
  - destruct s as [|c r]; [repeat split; auto|].
    simpl in Hle, Hk. apply andb_true_iff in Hk as [Hc Hr].
    destruct (is_hyphen c) eqn:E.
    + cbv zeta. rewrite (collapse_hyphens_in c r E).
      assert (Hd : forallb is_kebab (dropWhile is_hyphen r) = true).
      { clear -Hr. induction r as [|d r IH]; simpl; [reflexivity|].
        simpl in Hr. apply andb_true_iff in Hr as [Hd Hr].
        destruct (is_hyphen d); [auto | simpl; now rewrite Hd, Hr]. }
      destruct (IH (dropWhile is_hyphen r)) as (K & N & H); [|exact Hd|].
      { pose proof (dropWhile_length is_hyphen r). lia. }
      specialize (H (dropWhile_head is_hyphen r)).
      repeat split.
      * simpl. exact K.
      * destruct (collapse_runs is_hyphen 2 (lit "-") (dropWhile is_hyphen r))
          as [|d out] eqn:O; [reflexivity|].
        simpl in H. rewrite no_adjacent_hyphens_cons, H, N.
        now rewrite andb_false_r.
      * simpl. rewrite E. discriminate.
    + cbv zeta. rewrite (collapse_hyphens_out c r E).
      destruct (IH r) as (K & N & H); [lia | exact Hr |].
      repeat split.
      * simpl. now rewrite Hc, K.
      * destruct (collapse_runs is_hyphen 2 (lit "-") r) as [|d out] eqn:O;
          [reflexivity|].
        rewrite no_adjacent_hyphens_cons, E, N. reflexivity.
      * intros _. simpl. exact E.
Qed.

Lemma collapse_hyphens_id s :
  no_adjacent_hyphens s = true ->
  collapse_runs is_hyphen 2 (lit "-") s = s.
Proof.
  induction s as [|c r IH]; [reflexivity|]. intros H.
  assert (Hr : no_adjacent_hyphens r = true).
  { destruct r; [reflexivity|]. rewrite no_adjacent_hyphens_cons in H.
    now apply andb_true_iff in H as [_ H]. }
  destruct (is_hyphen c) eqn:E.
  - rewrite (collapse_hyphens_in c r E).
    rewrite dropWhile_id.
    + rewrite (IH Hr). apply is_hyphen_eq in E. now subst c.
    + destruct r as [|d r]; [reflexivity|].
      rewrite no_adjacent_hyphens_cons, E in H. simpl in *.
      destruct (is_hyphen d); [discriminate | reflexivity].
  - rewrite (collapse_hyphens_out c r E). now rewrite (IH Hr).
Qed.

Lemma normalize_filename_spec toLowerCase s :
  normalize_filename toLowerCase s = spec_normalize toLowerCase s.
Proof.
  unfold normalize_filename, spec_normalize.
  rewrite !replace_class_delete.
  unfold replace.
  rewrite (replace_g_ext re_hyphens (re_run is_hyphen 2) _ re_hyphens_run).
  rewrite (replace_g_ext (re_plus is_ws) (re_run is_ws 1) _ (re_plus_run is_ws)).
  fold (replace (re_run is_ws 1) (lit "-")
          (delete_chars is_backtick (toLowerCase s))).
  rewrite (replace_run_collapse is_ws 1 (lit "-")) by lia.
  match goal with
  | |- replace_g ?m ?r 0 ?x = _ => fold (replace m r x)
  end.
  rewrite (replace_run_collapse is_hyphen 2 (lit "-")) by lia.
  reflexivity.
Qed.

Lemma spec_normalize_normalized toLowerCase s :
  normalized (spec_normalize toLowerCase s) = true.
Proof.
  unfold spec_normalize, normalized.
  set (t := delete_chars _ (collapse_runs is_ws 1 _ _)).
  assert (Hk : forallb is_kebab t = true).
  { subst t. eapply forallb_impl; [|apply delete_chars_keeps].
    intros c. simpl. now rewrite negb_involutive. }
  destruct (collapse_hyphens_spec (length t) t (le_n _) Hk) as (K & N & _).
  now rewrite K, N.
Qed.

Lemma spec_normalize_id toLowerCase s :
  toLowerCase s = s ->
  normalized s = true ->
  spec_normalize toLowerCase s = s.
Proof.
  intros L [K N]%andb_true_iff. unfold spec_normalize. rewrite L.
  rewrite (delete_chars_none is_backtick).
  2:{ eapply forallb_impl; [|exact K]. intros c Hc.
      now rewrite (kebab_not_backtick c Hc). }
  rewrite (collapse_runs_none is_ws 1 (lit "-")).
  2:{ eapply forallb_impl; [|exact K]. intros c Hc.
      now rewrite (kebab_not_ws c Hc). }
  rewrite delete_chars_none.
  2:{ eapply forallb_impl; [|exact K]. intros c Hc.
      now rewrite negb_involutive. }
  now apply collapse_hyphens_id.
Qed.

(** C6. The clean-up of the returned filename computes, in this order:
    lowercasing, deletion of the backticks, replacement of each maximal
    run of whitespace by one hyphen, deletion of every character outside
    [[a-z0-9-]], and replacement of each run of two or more hyphens by one
    hyphen; its result has only characters of [[a-z0-9-]] and no two
    adjacent hyphens. *)
Theorem C6_normalize_filename_pipeline :
  forall (toLowerCase : jsstring -> jsstring) (s : jsstring),
    normalize_filename toLowerCase s
    = collapse_runs is_hyphen 2 (lit "-")
        (delete_chars (fun c => negb (is_kebab c))
           (collapse_runs is_ws 1 (lit "-")
              (delete_chars is_backtick (toLowerCase s))))
    /\ forallb is_kebab (normalize_filename toLowerCase s) = true
    /\ no_adjacent_hyphens (normalize_filename toLowerCase s) = true.
Proof.
  intros lower s.
  pose proof (spec_normalize_normalized lower s) as H.
  rewrite <- normalize_filename_spec in H.
  apply andb_true_iff in H as [K N].
  split; [apply normalize_filename_spec | split; assumption].
Qed.

(** C7. The clean-up is idempotent: cleaning a cleaned filename returns
    it unchanged, and a string that is already in normalized form (only
    characters of [[a-z0-9-]], no two adjacent hyphens) is left as it is.
    The built-in [toLowerCase] enters through the one fact used: it
    leaves a string of characters of [[a-z0-9-]] unchanged. *)
Theorem C7_normalize_filename_idempotent :
  forall (toLowerCase : jsstring -> jsstring),
    (forall t, forallb is_kebab t = true -> toLowerCase t = t) ->
    forall s : jsstring,
      normalize_filename toLowerCase (normalize_filename toLowerCase s)
      = normalize_filename toLowerCase s
      /\ (normalized s = true -> normalize_filename toLowerCase s = s).
Proof.
  intros lower Hlower s.
  assert (Hid : forall t, normalized t = true -> normalize_filename lower t = t).
  { intros t Ht. rewrite normalize_filename_spec.
    apply spec_normalize_id; [|exact Ht].
    apply Hlower. now apply andb_true_iff in Ht as [K _]. }
  split; [|apply Hid].
  apply Hid. rewrite normalize_filename_spec. apply spec_normalize_normalized.
Qed.

Lemma ascii_toLowerCase_kebab t :
  forallb is_kebab t = true -> ascii_toLowerCase t = t.
Proof.
  unfold ascii_toLowerCase. induction t as [|c r IH]; simpl; [reflexivity|].
  intros [Hc Hr]%andb_true_iff. rewrite (IH Hr). f_equal.
  unfold is_kebab in Hc.
  destruct ((65 <=? c) && (c <=? 90)) eqn:E; [lia | reflexivity].
Qed.

Lemma C7_witness :
  normalize_filename ascii_toLowerCase
    (normalize_filename ascii_toLowerCase (lit "`Female Elf--Archer`"))
  = normalize_filename ascii_toLowerCase (lit "`Female Elf--Archer`")
  /\ (normalized (lit "`Female Elf--Archer`") = true ->
      normalize_filename ascii_toLowerCase (lit "`Female Elf--Archer`")
      = lit "`Female Elf--Archer`").
Proof.
  exact (C7_normalize_filename_idempotent ascii_toLowerCase
           ascii_toLowerCase_kebab (lit "`Female Elf--Archer`")).
Defined.

(** ** UCS-2 encoding of the EXIF text fields *)

Lemma toUcs2Bytes_loop (str : jsstring) (acc : list Z) :
  fold_left (fun bytes c => bytes ++ [Z.land c 255; Z.land (Z.shiftr c 8) 255])
            str acc
  = acc ++ flat_map (fun c => [Z.land c 255; Z.land (Z.shiftr c 8) 255]) str.
Proof.
  revert acc. induction str as [|c r IH]; intros acc; simpl.
  - now rewrite app_nil_r.
  - rewrite IH, <- app_assoc. reflexivity.
Qed.

Lemma low_byte c : Z.land c 255 = c mod 256.
Proof. change 255 with (Z.ones 8). now rewrite Z.land_ones by lia. Qed.

Lemma high_byte c : code_unit c -> Z.land (Z.shiftr c 8) 255 = c / 256.
Proof.
  intros [H0 H1]. rewrite low_byte, Z.shiftr_div_pow2 by lia.
  change (2 ^ 8) with 256. apply Z.mod_small.
  split; [apply Z.div_pos; lia | apply Z.div_lt_upper_bound; lia].
Qed.

Lemma toUcs2Bytes_flat_map (str : jsstring) :
  Forall code_unit str ->
  toUcs2Bytes str = flat_map (fun c => [c mod 256; c / 256]) str ++ [0; 0].
Proof.
  intros H. unfold toUcs2Bytes. rewrite toUcs2Bytes_loop. simpl. f_equal.
  induction H as [|c r Hc Hr IH]; simpl; [reflexivity|].
  now rewrite low_byte, (high_byte c Hc), IH.
Qed.

Lemma toUcs2Bytes_length (str : jsstring) :
  length (toUcs2Bytes str) = (2 * length str + 2)%nat.
Proof.
  unfold toUcs2Bytes. rewrite toUcs2Bytes_loop. simpl.
  rewrite length_app. simpl.
  induction str as [|c r IH]; simpl in *; lia.
Qed.

(** C8. The title, author, comment and keywords fields of an exported
    item are UTF-16LE: for each code unit its low byte, then its high
    byte, and two zero bytes at the end, [2n+2] bytes for [n] code units.
    The comment encodes the description, the author the constant
    ["Game Art Assistant"], the keywords the tags joined with [;]. *)
Theorem C8_exif_text_fields_utf16le :
  forall (md : ImageMetadata) (str : jsstring),
    Forall code_unit str ->
    toUcs2Bytes str = flat_map (fun c => [c mod 256; c / 256]) str ++ [0; 0]
    /\ Forall (fun b => 0 <= b < 256) (toUcs2Bytes str)
    /\ length (toUcs2Bytes str) = (2 * length str + 2)%nat
    /\ XPTitle (zeroth_of md) = toUcs2Bytes (title md)
    /\ XPAuthor (zeroth_of md) = toUcs2Bytes (lit "Game Art Assistant")
    /\ XPComment (zeroth_of md) = toUcs2Bytes (description md)
    /\ XPKeywords (zeroth_of md) = toUcs2Bytes (join (lit ";") (tags md)).
Proof.
  intros md str H. split; [now apply toUcs2Bytes_flat_map|].
  split; [|split; [apply toUcs2Bytes_length | repeat split]].
  rewrite (toUcs2Bytes_flat_map str H).
  apply Forall_app. split; [|repeat constructor; lia].
  induction H as [|c r [H0 H1] Hr IH]; simpl; [constructor|].
  constructor; [apply Z.mod_pos_bound; lia|].
  constructor; [|exact IH].
  split; [apply Z.div_pos; lia | apply Z.div_lt_upper_bound; lia].
Qed.

Lemma C8_witness :
  Forall code_unit [8364; 65] /\
  toUcs2Bytes [8364; 65] = [172; 32; 65; 0; 0; 0].
Proof.
  assert (H : Forall code_unit [8364; 65])
    by (repeat constructor; unfold code_unit; lia).
  split; [exact H|].
  destruct (C8_exif_text_fields_utf16le
              {| filename := []; title := []; description := []; tags := [] |}
              [8364; 65] H) as [E _].
  exact E.
Defined.

(** ** Bulk tags *)

Lemma filter_filter {A} (p q : A -> bool) (l : list A) :
  List.filter p (List.filter q l) = List.filter (fun x => q x && p x) l.
Proof.
  induction l as [|x r IH]; simpl; [reflexivity|].
  destruct (q x); simpl; [destruct (p x)|]; now rewrite IH.
Qed.

Lemma dedup_first_filter (p : jsstring -> bool) (l : list jsstring) :
  dedup_first (List.filter p l) = List.filter p (dedup_first l).
Proof.
  induction l as [|x r IH]; simpl; [reflexivity|].
  destruct (p x) eqn:E; simpl.
  - rewrite IH, !filter_filter. f_equal. apply List.filter_ext.
    intros y. apply andb_comm.
  - rewrite IH, filter_filter. apply List.filter_ext. intros y.
    destruct (bool_decide (y = x)) eqn:D; simpl; [|reflexivity].
    apply bool_decide_eq_true in D. subst y. now rewrite E.
Qed.

Lemma fold_Set_add (l acc : list jsstring) :
  fold_left Set_add l acc
  = acc ++ dedup_first
             (List.filter (fun y => negb (bool_decide (y ∈ acc))) l).
Proof.
  revert acc. induction l as [|x r IH]; intros acc; simpl.
  - now rewrite app_nil_r.
  - rewrite IH. unfold Set_add.
    destruct (bool_decide (x ∈ acc)) eqn:D; simpl; [reflexivity|].
    rewrite <- app_assoc. simpl. do 2 f_equal.
    rewrite <- dedup_first_filter, filter_filter. f_equal.
    apply List.filter_ext. intros y.
    destruct (bool_decide (y = x)) eqn:Dx.
    + apply bool_decide_eq_true in Dx. subst y.
      rewrite bool_decide_eq_true_2 by (apply elem_of_app; right; constructor).
      now rewrite andb_false_r.
    + apply bool_decide_eq_false in Dx. rewrite andb_true_r.
      f_equal. apply bool_decide_ext. rewrite elem_of_app, list_elem_of_singleton.
      tauto.
Qed.

(** The [Set] built from a list is the list without its duplicates, each
    element where it occurs first. *)
Lemma new_Set_dedup_first (l : list jsstring) : new_Set l = dedup_first l.
Proof.
  unfold new_Set. rewrite fold_Set_add. simpl. f_equal.
  induction l as [|x r IH]; [reflexivity|].
  cbn [List.filter]. now rewrite IH.
Qed.

Lemma filter_idem {A} (p : A -> bool) (l : list A) :
  List.filter p (List.filter p l) = List.filter p l.
Proof.
  rewrite filter_filter. apply List.filter_ext. intros x. now destruct (p x).
Qed.

Lemma dedup_first_idem (l : list jsstring) :
  dedup_first (dedup_first l) = dedup_first l.
Proof.
  induction l as [|x r IH]; simpl; [reflexivity|].
  now rewrite dedup_first_filter, IH, filter_idem.
Qed.

Lemma elem_of_dedup_first (x : jsstring) (l : list jsstring) :
  x ∈ dedup_first l <-> x ∈ l.
Proof.
  induction l as [|y r IH]; simpl; [reflexivity|].
  rewrite !elem_of_cons, <- IH.
  rewrite !list_elem_of_In, List.filter_In, negb_true_iff, bool_decide_eq_false.
  destruct (decide (x = y)); tauto.
Qed.

Lemma NoDup_dedup_first (l : list jsstring) : NoDup (dedup_first l).
Proof.
  induction l as [|y r IH]; simpl; constructor.
  - rewrite list_elem_of_In, List.filter_In, negb_true_iff, bool_decide_eq_false.
    tauto.
  - apply NoDup_ListNoDup, List.NoDup_filter, NoDup_ListNoDup, IH.
Qed.

Lemma filter_none {A} (p : A -> bool) (l : list A) :
  (forall x, In x l -> p x = false) -> List.filter p l = [].
Proof.
  induction l as [|x r IH]; simpl; [reflexivity|]. intros H.
  rewrite (H x) by now left. apply IH. intros y Hy. apply H. now right.
Qed.

(** Merging the same new tags a second time changes nothing. *)
Lemma dedup_first_again (t n : list jsstring) :
  dedup_first (dedup_first (t ++ n) ++ n) = dedup_first (t ++ n).
Proof.
  rewrite <- (new_Set_dedup_first (_ ++ n)). unfold new_Set.
  rewrite fold_left_app. fold (new_Set (dedup_first (t ++ n))).
  rewrite new_Set_dedup_first, dedup_first_idem, fold_Set_add.
  rewrite filter_none; [apply app_nil_r|].
  intros y Hy. apply negb_false_iff, bool_decide_eq_true_2.
  apply elem_of_dedup_first, elem_of_app. right. now apply list_elem_of_In.
Qed.

Lemma dropWhile_snoc (p : Z -> bool) (l : jsstring) (c : Z) :
  p c = false -> dropWhile p (l ++ [c]) = dropWhile p l ++ [c].
Proof.
  intros E. induction l as [|x r IH]; simpl; [now rewrite E|].
  destruct (p x); [exact IH | reflexivity].
Qed.

Lemma dropWhile_nil (p : Z -> bool) (s : jsstring) :
  dropWhile p s = [] -> forallb p s = true.
Proof.
  induction s as [|c r IH]; simpl; [reflexivity|].
  destruct (p c); [exact IH | discriminate].
Qed.

Lemma trim_leading (s : jsstring) : head_is is_ws (trim s) = false.
Proof.
  unfold trim. pose proof (dropWhile_head is_ws s) as H.
  destruct (dropWhile is_ws s) as [|c u]; [reflexivity|]. simpl in H.
  simpl rev at 2. rewrite (dropWhile_snoc is_ws (rev u) c H).
  rewrite rev_app_distr. simpl. exact H.
Qed.

Lemma trim_trailing (s : jsstring) : head_is is_ws (rev (trim s)) = false.
Proof. unfold trim. rewrite rev_involutive. apply dropWhile_head. Qed.

Lemma trim_nil (s : jsstring) : trim s = [] -> forallb is_ws s = true.
Proof.
  unfold trim. intros H.
  assert (H' : dropWhile is_ws (rev (dropWhile is_ws s)) = []).
  { destruct (dropWhile is_ws (rev (dropWhile is_ws s))) as [|c u] eqn:Hu;
      [reflexivity|].
    apply (f_equal (@length Z)) in H. rewrite length_rev in H. discriminate. }
  apply dropWhile_nil in H'.
  pose proof (dropWhile_head is_ws s) as Hh.
  destruct (dropWhile is_ws s) as [|c u] eqn:E; [now apply dropWhile_nil|].
  simpl in Hh. simpl in H'. rewrite forallb_app in H'. simpl in H'.
  rewrite Hh in H'. rewrite andb_false_r in H'. discriminate.
Qed.

Lemma split_no_sep (sep : Z -> bool) (s : jsstring) :
  forallb (fun c => negb (sep c)) s = true -> split sep s = [s].
Proof.
  induction s as [|c r IH]; simpl; [reflexivity|].
  intros [E H]%andb_true_iff. apply negb_true_iff in E.
  now rewrite E, (IH H).
Qed.

Lemma parse_tags_blank (input : jsstring) :
  trim input = [] -> parse_tags input = [].
Proof.
  intros H. unfold parse_tags. rewrite split_no_sep.
  - simpl. now rewrite H.
  - apply trim_nil in H. eapply forallb_impl; [|exact H].
    intros c Hc. unfold is_ws in Hc. unfold is_comma. lia.
Qed.

Lemma parse_tags_trimmed (input : jsstring) :
  Forall trimmed (parse_tags input).
Proof.
  unfold parse_tags. apply Forall_forall. intros t Ht.
  apply list_elem_of_In, List.filter_In in Ht as [Ht Hne].
  apply negb_true_iff, bool_decide_eq_false in Hne.
  apply List.in_map_iff in Ht as (s & <- & _).
  split; [exact Hne | split; [apply trim_leading | apply trim_trailing]].
Qed.

Lemma apply_tags_spec (newTags : list jsstring) (f : ImageFile) :
  apply_tags newTags f = spec_merge newTags f.
Proof.
  unfold apply_tags, spec_merge.
  destruct (status f); try reflexivity.
  destruct (metadata f); [|reflexivity].
  now rewrite new_Set_dedup_first.
Qed.

Lemma spec_merge_idem (newTags : list jsstring) (f : ImageFile) :
  spec_merge newTags (spec_merge newTags f) = spec_merge newTags f.
Proof.
  unfold spec_merge. destruct (status f) eqn:S; simpl; rewrite ?S; try reflexivity.
  destruct (metadata f) eqn:M; simpl; rewrite ?S, ?M; [|reflexivity].
  simpl. now rewrite dedup_first_again.
Qed.

Lemma handleApplyCustomTags_cases (input : jsstring) (prevFiles : list ImageFile) :
  handleApplyCustomTags input prevFiles
  = if bool_decide (parse_tags input = []) then prevFiles
    else map (spec_merge (parse_tags input)) prevFiles.
Proof.
  unfold handleApplyCustomTags.
  destruct (bool_decide (trim input = [])) eqn:T.
  - apply bool_decide_eq_true in T.
    now rewrite (parse_tags_blank input T).
  - destruct (parse_tags input) as [|t ts] eqn:P; [reflexivity|].
    simpl. apply map_ext. intros f. apply apply_tags_spec.
Qed.

(** C4 (as amended). The bulk tag operation parses its input into
    candidate tags, each trimmed and none empty.  When there is at least
    one candidate, every item in [SUCCESS] status gets as its tag list the
    concatenation of its tags and the candidates without the duplicates,
    each tag where it first occurs, and the other items are unchanged.
    When there is no candidate, the operation changes nothing.  Applying
    the same input twice gives what applying it once gives. *)
Theorem C4_bulk_tags_merge :
  forall (customTagsInput : jsstring) (prevFiles : list ImageFile),
    let newTags := parse_tags customTagsInput in
    let nextFiles := handleApplyCustomTags customTagsInput prevFiles in
    Forall trimmed newTags
    /\ (newTags <> [] -> nextFiles = map (spec_merge newTags) prevFiles)
    /\ (newTags = [] -> nextFiles = prevFiles)
    /\ (forall k f, prevFiles !! k = Some f -> status f <> SUCCESS ->
        nextFiles !! k = Some f)
    /\ handleApplyCustomTags customTagsInput nextFiles = nextFiles.
Proof.
  intros input prev newTags nextFiles. subst nextFiles newTags.
  rewrite !handleApplyCustomTags_cases.
  split; [apply parse_tags_trimmed|].
  destruct (bool_decide (parse_tags input = [])) eqn:D.
  - apply bool_decide_eq_true in D. repeat split; auto. congruence.
  - apply bool_decide_eq_false in D. repeat split; auto.
    + congruence.
    + intros k f Hk Hs. rewrite list_lookup_fmap, Hk. simpl. f_equal.
      unfold spec_merge. destruct (status f); congruence.
    + rewrite map_map. apply map_ext. intros f. apply spec_merge_idem.
Qed.

(** ** Validation of the response *)

Section Validation.
Variable toLowerCase : jsstring -> jsstring.
Variable JSON_parse : jsstring -> option value.

Lemma analyze_body_unparsed text :
  JSON_parse (trim text) = None ->
  analyze_body toLowerCase JSON_parse (inr text) = throw SyntaxError.
Proof. intros H. unfold analyze_body. simpl. now rewrite H. Qed.

Lemma get_prop v key :
  v <> VNull -> v <> VUndefined -> get v key = ret (prop v key).
Proof. destruct v; simpl; congruence. Qed.

(** The body after a successful parse, case by case. *)
Lemma analyze_body_parsed text v :
  JSON_parse (trim text) = Some v ->
  analyze_body toLowerCase JSON_parse (inr text)
  = match v with
    | VNull | VUndefined => throw TypeError
    | _ =>
      if rejected v then throw invalid_structure
      else match prop v (lit "filename") with
           | VStr s =>
             set v (lit "filename") (VStr (normalize_filename toLowerCase s))
           | _ => throw TypeError
           end
    end.
Proof.
  intros H. unfold analyze_body.
  cbn [bind ret]. rewrite H. cbn [bind ret].
  destruct v as [| | b | nz | s | elems | props]; try reflexivity.
  unfold rejected. cbn [get prop bind ret].
  destruct (truthy (default VUndefined (lookup_prop (lit "filename") props)));
    [|reflexivity].
  destruct (truthy (default VUndefined (lookup_prop (lit "title") props)));
    [|reflexivity].
  destruct (truthy (default VUndefined (lookup_prop (lit "description") props)));
    [|reflexivity].
  cbn [negb orb bind ret].
  destruct (isArray (default VUndefined (lookup_prop (lit "tags") props)));
    [|reflexivity].
  cbn [negb].
  destruct (default VUndefined (lookup_prop (lit "filename") props));
    reflexivity.
Qed.

Lemma rejected_false v :
  rejected v = false ->
  exists props, v = VObj props /\ truthy (prop v (lit "filename")) = true
                /\ truthy (prop v (lit "title")) = true
                /\ truthy (prop v (lit "description")) = true
                /\ isArray (prop v (lit "tags")) = true.
Proof.
  unfold rejected. rewrite !orb_false_iff, !negb_false_iff.
  intros [[[F T] D] A]. destruct v; try discriminate. eauto 10.
Qed.
End Validation.

Lemma messages_differ : parse_message <> analyze_message.
Proof. vm_compute. discriminate. Qed.

Lemma rejected_iff v :
  rejected v = true
  <-> truthy (prop v (lit "filename")) = false
      \/ truthy (prop v (lit "title")) = false
      \/ truthy (prop v (lit "description")) = false
      \/ isArray (prop v (lit "tags")) = false.
Proof.
  unfold rejected. rewrite !orb_true_iff, !negb_true_iff. tauto.
Qed.

Lemma analyze_body_SyntaxError toLowerCase JSON_parse text :
  analyze_body toLowerCase JSON_parse (inr text) = throw SyntaxError
  <-> JSON_parse (trim text) = None.
Proof.
  split; [|apply analyze_body_unparsed].
  destruct (JSON_parse (trim text)) as [v|] eqn:P; [|reflexivity].
  rewrite (analyze_body_parsed _ _ text v P).
  destruct v; try discriminate;
    (destruct (rejected _); [discriminate|]);
    try discriminate.
  destruct (prop _ _); discriminate.
Qed.

(** C3 (as amended). The client fails with a parse error exactly when
    the trimmed response body is not well-formed JSON.  For a parsed value
    it fails with a shape error exactly when the value is not [null] and
    [filename], [title] or [description] is missing or falsy ([null],
    [false], zero, the empty string), or [tags] is not an array; the
    elements of [tags] are not looked at.  An object whose [filename] is
    a non-empty string, whose [title] and [description] are truthy and
    whose [tags] is an array passes, and comes back with its filename
    cleaned. *)
Theorem C3_validation_outcomes :
  forall (toLowerCase : jsstring -> jsstring)
         (JSON_parse : jsstring -> option value) (text : jsstring),
    let result := analyze_body toLowerCase JSON_parse (inr text) in
    (result = throw SyntaxError <-> JSON_parse (trim text) = None)
    /\ (analyzeImageAndSuggestMetadata toLowerCase JSON_parse (inr text)
        = throw (Error parse_message) <-> JSON_parse (trim text) = None)
    /\ (forall v, JSON_parse (trim text) = Some v ->
        (result = throw invalid_structure
         <-> v <> VNull /\ v <> VUndefined
             /\ (truthy (prop v (lit "filename")) = false
                 \/ truthy (prop v (lit "title")) = false
                 \/ truthy (prop v (lit "description")) = false
                 \/ isArray (prop v (lit "tags")) = false))
        /\ (forall props s elems,
            v = VObj props ->
            lookup_prop (lit "filename") props = Some (VStr s) -> s <> [] ->
            truthy (prop v (lit "title")) = true ->
            truthy (prop v (lit "description")) = true ->
            lookup_prop (lit "tags") props = Some (VArr elems) ->
            result
            = ret (VObj (assign_prop (lit "filename")
                           (VStr (normalize_filename toLowerCase s)) props)))).
Proof.
  intros lower parse text result. subst result.
  split; [apply analyze_body_SyntaxError|]. split.
  - rewrite <- (analyze_body_SyntaxError lower parse text).
    unfold analyzeImageAndSuggestMetadata.
    destruct (analyze_body lower parse (inr text)) as [[]|]; unfold throw, ret;
      split; intros H; try discriminate; try reflexivity.
    all: injection H as H; now destruct messages_differ.
  - intros v P. rewrite (analyze_body_parsed lower parse text v P). split.
    + rewrite <- rejected_iff.
      destruct v; try (split; [discriminate | intros (N & U & _); congruence]).
      all: destruct (rejected _) eqn:R;
        [split; [intros _; repeat split; congruence | reflexivity]|].
      all: split; [|intros (_ & _ & ?); discriminate].
      all: try discriminate.
      destruct (prop _ _); discriminate.
    + intros props s elems -> F Hs T D A.
      assert (R : rejected (VObj props) = false).
      { unfold rejected. rewrite T, D. simpl prop. rewrite F, A. simpl.
        rewrite bool_decide_eq_false_2 by exact Hs. reflexivity. }
      rewrite R. simpl prop. rewrite F. reflexivity.
Qed.

(** C10. A parsed response in which [filename], [title] or
    [description] is the empty string is rejected with the shape error,
    whatever else it holds; a response that passes is an object whose
    [filename] is a non-empty string and whose [title] and [description]
    are not the empty string. *)
Theorem C10_empty_strings_rejected :
  forall (toLowerCase : jsstring -> jsstring)
         (JSON_parse : jsstring -> option value) (text : jsstring) (v : value),
    JSON_parse (trim text) = Some v ->
    (forall props,
        v = VObj props ->
        lookup_prop (lit "filename") props = Some (VStr [])
        \/ lookup_prop (lit "title") props = Some (VStr [])
        \/ lookup_prop (lit "description") props = Some (VStr []) ->
        analyze_body toLowerCase JSON_parse (inr text) = throw invalid_structure
        /\ analyzeImageAndSuggestMetadata toLowerCase JSON_parse (inr text)
           = throw (Error analyze_message))
    /\ (forall md,
        analyze_body toLowerCase JSON_parse (inr text) = ret md ->
        exists props s,
          v = VObj props
          /\ lookup_prop (lit "filename") props = Some (VStr s) /\ s <> []
          /\ lookup_prop (lit "title") props <> Some (VStr [])
          /\ lookup_prop (lit "description") props <> Some (VStr [])).
Proof.
  intros lower parse text v P. split.
  - intros props -> H.
    assert (B : analyze_body lower parse (inr text) = throw invalid_structure).
    { rewrite (analyze_body_parsed lower parse text _ P).
      replace (rejected (VObj props)) with true; [reflexivity|].
      symmetry. apply rejected_iff. simpl prop.
      destruct H as [H|[H|H]]; rewrite H; simpl; tauto. }
    split; [exact B|].
    unfold analyzeImageAndSuggestMetadata. rewrite B. reflexivity.
  - intros md. rewrite (analyze_body_parsed lower parse text v P).
    destruct v as [| | b | nz | s | elems | props]; try discriminate.
    destruct (rejected (VObj props)) eqn:R; [discriminate|].
    apply rejected_false in R as (props' & E & F & T & D & _).
    simpl prop in *.
    destruct (lookup_prop (lit "filename") props) as [[]|] eqn:Lf;
      simpl; try discriminate.
    intros _. exists props, s. repeat split; auto.
    + intros ->. discriminate.
    + intros L. rewrite L in T. discriminate.
    + intros L. rewrite L in D. discriminate.
Qed.

Lemma C3_witness :
  analyze_body ascii_toLowerCase
    (parse_const (sample_response (lit "Elf  Archer") [VStr (lit "elf")]))
    (inr (lit " response "))
  = ret (sample_response (lit "elf-archer") [VStr (lit "elf")]).
Proof.
  pose proof (C3_validation_outcomes ascii_toLowerCase
                (parse_const (sample_response (lit "Elf  Archer") [VStr (lit "elf")]))
                (lit " response ")) as (_ & _ & H).
  destruct (H _ eq_refl) as [_ K].
  apply (K _ (lit "Elf  Archer") [VStr (lit "elf")] eq_refl);
    try reflexivity.
  discriminate.
Defined.

Lemma C3_counterexample :
  let v1 := sample_response [] [VStr (lit "elf")] in
  let v2 := sample_response (lit "elf") [VNum true] in
  (spec_shape_ok v1 = true
   /\ analyze_body ascii_toLowerCase (parse_const v1) (inr (lit "response"))
      = throw invalid_structure)
  /\ (spec_shape_ok v2 = false
      /\ analyze_body ascii_toLowerCase (parse_const v2) (inr (lit "response"))
         = ret v2).
Proof. vm_compute. repeat split. Qed.

Lemma C10_witness :
  analyze_body ascii_toLowerCase
    (parse_const (sample_response [] [VStr (lit "elf")]))
    (inr (lit "response"))
  = throw invalid_structure
  /\ analyzeImageAndSuggestMetadata ascii_toLowerCase
       (parse_const (sample_response [] [VStr (lit "elf")]))
       (inr (lit "response"))
     = throw (Error analyze_message).
Proof.
  destruct (C10_empty_strings_rejected ascii_toLowerCase
              (parse_const (sample_response [] [VStr (lit "elf")]))
              (lit "response") _ eq_refl) as [H _].
  apply (H _ eq_refl). left. reflexivity.
Defined.

Lemma C4_witness :
  let prevFiles :=
    run [ FilesSelected [sample_file (lit "a.png")] sample_fresh;
          AnalysisStarted (lit "id-0");
          AnalysisSucceeded (lit "id-0")
            (sample_metadata (lit "elf") [lit "b"; lit "c"]) ] [] in
  parse_tags (lit "a, b") <> []
  /\ map (fun f => tags <$> metadata f)
         (handleApplyCustomTags (lit "a, b") prevFiles)
     = [Some [lit "b"; lit "c"; lit "a"]].
Proof.
  intros prevFiles.
  assert (H : parse_tags (lit "a, b") <> []) by (vm_compute; discriminate).
  split; [exact H|].
  destruct (C4_bulk_tags_merge (lit "a, b") prevFiles) as (_ & E & _).
  cbv zeta in E. rewrite (E H). vm_compute. reflexivity.
Defined.

Lemma C4_counterexample :
  let prevFiles :=
    run [ FilesSelected [sample_file (lit "a.png")] sample_fresh;
          AnalysisStarted (lit "id-0");
          AnalysisSucceeded (lit "id-0")
            (sample_metadata (lit "elf") [lit "b"; lit "c"]);
          CardEdited 0 (EditTags (lit "b, b")) ] [] in
  map status prevFiles = [SUCCESS]
  /\ map (fun f => tags <$> metadata f) prevFiles = [Some [lit "b"; lit "b"]]
  /\ parse_tags (lit ",") = []
  /\ map (fun f => tags <$> metadata f)
         (handleApplyCustomTags (lit ",") prevFiles)
     = [Some [lit "b"; lit "b"]]
  /\ map (fun f => tags <$> metadata f)
         (map (spec_merge (parse_tags (lit ","))) prevFiles)
     = [Some [lit "b"]]
  /\ handleApplyCustomTags (lit ",") prevFiles
     <> map (spec_merge (parse_tags (lit ","))) prevFiles.
Proof. vm_compute. repeat split. discriminate. Qed.

(** The example of the specification. *)
Example bulk_tags_example :
  new_Set ([lit "b"; lit "c"] ++ parse_tags (lit "a, b"))
  = [lit "b"; lit "c"; lit "a"].
Proof. reflexivity. Qed.

(** ** The status invariant *)

Lemma Forall_map_in {A} (P : A -> Prop) (g : A -> A) (l : list A) :
  Forall P l -> (forall x, x ∈ l -> P x -> P (g x)) -> Forall P (map g l).
Proof.
  intros H K. apply Forall_fmap, Forall_forall. intros x Hx.
  apply K; [exact Hx|]. rewrite Forall_forall in H. now apply H.
Qed.

Lemma Forall_imap_all {A B} (P : B -> Prop) (g : nat -> A -> B) (l : list A) :
  (forall k x, P (g k x)) -> Forall P (imap g l).
Proof.
  revert g. induction l as [|x r IH]; intros g H; simpl; constructor.
  - apply H.
  - apply IH. intros k y. apply H.
Qed.

Lemma Forall_List_filter {A} (P : A -> Prop) (p : A -> bool) (l : list A) :
  Forall P l -> Forall P (List.filter p l).
Proof.
  rewrite !Forall_forall. intros H x Hx.
  apply list_elem_of_In, List.filter_In in Hx as [Hx _].
  now apply H, list_elem_of_In.
Qed.

Lemma Forall_updateImageFile (P : ImageFile -> Prop) i updates st :
  Forall P st ->
  (forall f, f ∈ st -> id f = i -> P f -> P (spread f updates)) ->
  Forall P (updateImageFile i updates st).
Proof.
  intros H K. unfold updateImageFile. apply Forall_map_in; [exact H|].
  intros f Hf Pf. destruct (bool_decide (id f = i)) eqn:D; [|exact Pf].
  apply bool_decide_eq_true in D. now apply K.
Qed.

Lemma Forall_handleFileSelect (P : ImageFile -> Prop) selectedFiles fresh st :
  Forall P st ->
  (forall f, metadata f = None -> status f = IDLE -> error f = None -> P f) ->
  Forall P (handleFileSelect selectedFiles fresh st).
Proof.
  intros H K. unfold handleFileSelect. apply Forall_app. split; [exact H|].
  apply Forall_imap_all. intros k x. now apply K.
Qed.

Lemma Forall_card_edit (P : ImageFile -> Prop) (k : nat) e st :
  Forall P st ->
  (forall f md, P f -> metadata f <> None ->
                P (spread f {| set_metadata := Some (Some md);
                               set_status := None; set_error := None |})) ->
  (forall f md, P f -> metadata f = None ->
                P (spread f {| set_metadata := Some (Some md);
                               set_status := None; set_error := None |})) ->
  Forall P (card_edit k e st).
Proof.
  intros H K1 K2. unfold card_edit.
  destruct (st !! k) as [g|]; [|exact H].
  destruct (match e with
            | EditField fld v => handleInputChange g fld v
            | EditTags v => handleTagsChange g v
            end) as [md|]; [|exact H].
  unfold handleMetadataChange. apply Forall_updateImageFile; [exact H|].
  intros f _ _ Pf. destruct (metadata f) eqn:M.
  - apply K1; [exact Pf | congruence].
  - now apply K2.
Qed.

Lemma Forall_handleApplyCustomTags (P : ImageFile -> Prop) input st :
  Forall P st ->
  (forall f newTags, P f -> P (spec_merge newTags f)) ->
  Forall P (handleApplyCustomTags input st).
Proof.
  intros H K. rewrite handleApplyCustomTags_cases.
  destruct (bool_decide _); [exact H|].
  apply Forall_map_in; [exact H|]. intros f _ Pf. now apply K.
Qed.

Lemma spec_merge_status newTags f : status (spec_merge newTags f) = status f.
Proof.
  unfold spec_merge. destruct (status f) eqn:S; auto.
  destruct (metadata f); auto.
Qed.

Lemma spec_merge_error newTags f : error (spec_merge newTags f) = error f.
Proof.
  unfold spec_merge. destruct (status f); auto. destruct (metadata f); auto.
Qed.

Lemma status_inv_step st ev :
  Forall status_inv st -> Forall status_inv (step st ev).
Proof.
  intros H. destruct ev; simpl.
  - apply Forall_handleFileSelect; [exact H|].
    intros f M S E. split; congruence.
  - apply Forall_updateImageFile; [exact H|].
    intros f _ _ _. split; simpl; discriminate.
  - apply Forall_updateImageFile; [exact H|].
    intros f _ _ _. split; simpl; discriminate.
  - apply Forall_updateImageFile; [exact H|].
    intros f _ _ _. split; simpl; discriminate.
  - apply Forall_card_edit; [exact H| |];
      intros f md [Hs He] _; split; simpl; [discriminate | exact He
                                           | discriminate | exact He].
  - now apply Forall_List_filter.
  - constructor.
  - apply Forall_handleApplyCustomTags; [exact H|].
    intros f newTags [Hs He]. unfold spec_merge.
    destruct (status f) eqn:S; try (split; rewrite ?S; assumption).
    destruct (metadata f) eqn:M; split; simpl; rewrite ?S, ?M;
      try assumption; intros _; discriminate.
Qed.

Lemma all_with_id_elem i p st f :
  all_with_id i p st = true -> f ∈ st -> id f = i -> p f = true.
Proof.
  unfold all_with_id. rewrite forallb_forall. intros H Hf E.
  specialize (H f (proj1 (list_elem_of_In _ _) Hf)).
  now rewrite bool_decide_eq_true_2 in H by exact E.
Qed.

Lemma error_inv_step st ev :
  delivery_ok st ev = true ->
  Forall error_inv st -> Forall error_inv (step st ev).
Proof.
  intros Hok H. destruct ev; simpl.
  - apply Forall_handleFileSelect; [exact H|].
    intros f M S E. unfold error_inv. congruence.
  - apply Forall_updateImageFile; [exact H|].
    intros f _ _ _. unfold error_inv. simpl. congruence.
  - apply Forall_updateImageFile; [exact H|].
    intros f Hf Hi Pf. simpl in Hok.
    pose proof (all_with_id_elem _ _ _ f Hok Hf Hi) as L. simpl in L.
    unfold error_inv in *. simpl. intros E. specialize (Pf E).
    rewrite Pf in L. discriminate.
  - apply Forall_updateImageFile; [exact H|].
    intros f _ _ _. unfold error_inv. simpl. congruence.
  - apply Forall_card_edit; [exact H| |]; intros f md Pf _; exact Pf.
  - now apply Forall_List_filter.
  - constructor.
  - apply Forall_handleApplyCustomTags; [exact H|].
    intros f newTags Pf. unfold error_inv.
    now rewrite spec_merge_error, spec_merge_status.
Qed.

Lemma status_inv_run evs : forall st,
  Forall status_inv st -> Forall status_inv (run evs st).
Proof.
  induction evs as [|ev r IH]; intros st H; [exact H|].
  apply IH, status_inv_step, H.
Qed.

Lemma error_inv_run evs : forall st,
  delivered_while_loading st evs = true ->
  Forall error_inv st -> Forall error_inv (run evs st).
Proof.
  induction evs as [|ev r IH]; intros st D H; [exact H|].
  simpl in D. apply andb_true_iff in D as [D1 D2].
  apply IH; [exact D2 | now apply error_inv_step].
Qed.

(** C1 (as amended). At every observable point of a session, every item
    in [SUCCESS] status has metadata and every item in [ERROR] status has
    an error message.  As long as each successful analysis is delivered
    to an item that is still loading, an item with an error message is in
    [ERROR] status. *)
Theorem C1_status_invariant :
  forall (evs : list event) (f : ImageFile),
    f ∈ run evs [] ->
    (status f = SUCCESS -> metadata f <> None)
    /\ (status f = ERROR -> error f <> None)
    /\ (delivered_while_loading [] evs = true ->
        (error f <> None <-> status f = ERROR)).
Proof.
  intros evs f Hf.
  pose proof (status_inv_run evs [] (List.Forall_nil _)) as H.
  rewrite Forall_forall in H. destruct (H f Hf) as [Hs He].
  split; [exact Hs|]. split; [exact He|].
  intros D. split; [|exact He].
  pose proof (error_inv_run evs [] D (List.Forall_nil _)) as K.
  rewrite Forall_forall in K. exact (K f Hf).
Qed.

Lemma C1_witness :
  let f := sample_item 0 (lit "a.png")
             (Some (sample_metadata (lit "elf") [lit "b"])) SUCCESS None in
  let evs := firstn 3 regenerate_session in
  f ∈ run evs []
  /\ metadata f <> None
  /\ (error f <> None <-> status f = ERROR).
Proof.
  intros f evs.
  assert (Hf : f ∈ run evs []) by (vm_compute; left).
  destruct (C1_status_invariant evs f Hf) as (Hs & _ & He).
  split; [exact Hf|]. split; [apply Hs; reflexivity | apply He; reflexivity].
Defined.

Lemma C1_counterexample :
  (run regenerate_session []
   = [sample_item 0 (lit "a.png")
        (Some (sample_metadata (lit "elf") [lit "b"])) LOADING None]
   /\ ~ (forall f, f ∈ run regenerate_session [] -> spec_inv f))
  /\ (run overlap_session []
      = [sample_item 0 (lit "a.png") None ERROR (Some analyze_message);
         sample_item 1 (lit "b.png")
           (Some (sample_metadata (lit "orc") [lit "c"])) SUCCESS
           (Some analyze_message)]
      /\ ~ (forall f, f ∈ run overlap_session [] -> spec_inv f)).
Proof.
  split; (split; [vm_compute; reflexivity|]); intros H.
  - destruct (H (sample_item 0 (lit "a.png")
                   (Some (sample_metadata (lit "elf") [lit "b"])) LOADING None))
      as [[M _] _]; [vm_compute; left|].
    simpl in M. discriminate M. discriminate.
  - destruct (H (sample_item 1 (lit "b.png")
                   (Some (sample_metadata (lit "orc") [lit "c"])) SUCCESS
                   (Some analyze_message)))
      as [_ [E _]]; [vm_compute; right; left|].
    simpl in E. discriminate E. discriminate.
Qed.

(** ** Generate All *)

Lemma find_by_id_elem (f : ImageFile) (l : list ImageFile) :
  f ∈ l -> exists g, find_by_id (id f) l = Some g.
Proof.
  unfold find_by_id. induction l as [|x r IH]; intros H.
  - now apply elem_of_nil in H.
  - simpl. destruct (bool_decide (id x = id f)) eqn:D; [eauto|].
    apply elem_of_cons in H as [->|H]; [|auto].
    now rewrite bool_decide_eq_true_2 in D.
Qed.

Lemma one_at_a_time_pair ev1 ev2 evs :
  one_at_a_time [ev1; ev2] = true -> one_at_a_time evs = true ->
  one_at_a_time (ev1 :: ev2 :: evs) = true.
Proof.
  destruct ev1; try discriminate. destruct ev2; try discriminate; simpl;
    rewrite !andb_true_r; now intros -> ->.
Qed.

Section GenerateAll.
Variable analyze : nat -> File -> thrown + ImageMetadata.
Variable imageFiles : list ImageFile.

(** One call of the single-item handler by the loop. *)
Lemma handleGenerateMetadataForOne_elem f k :
  f ∈ imageFiles ->
  exists ev,
    handleGenerateMetadataForOne analyze imageFiles k (id f)
    = [AnalysisStarted (id f); ev]
    /\ analysis_of ev = Some (id f)
    /\ one_at_a_time [AnalysisStarted (id f); ev] = true.
Proof.
  intros H. unfold handleGenerateMetadataForOne.
  destruct (find_by_id_elem f imageFiles H) as [g ->].
  destruct (analyze k (file g)); eexists; (split; [reflexivity|]);
    simpl; now rewrite bool_decide_eq_true_2.
Qed.

Lemma generateAll_loop_spec rest : forall k,
  (forall f, f ∈ rest -> f ∈ imageFiles) ->
  let evs := generateAll_loop analyze imageFiles rest k in
  started evs
  = map id (List.filter (fun f => needs_analysis (status f)) rest)
  /\ one_at_a_time evs = true
  /\ (forall ev, ev ∈ evs ->
      exists f, f ∈ rest /\ needs_analysis (status f) = true
                /\ analysis_of ev = Some (id f)).
Proof.
  induction rest as [|f rest IH]; intros k Hsub; cbv zeta.
  - simpl. repeat split; auto. intros ev H. now apply elem_of_nil in H.
  - assert (Hrest : forall g, g ∈ rest -> g ∈ imageFiles)
      by (intros g Hg; apply Hsub; now right).
    simpl. destruct (needs_analysis (status f)) eqn:N.
    + destruct (IH (S k) Hrest) as (A & B & C).
      destruct (handleGenerateMetadataForOne_elem f k) as (ev & -> & Hev & Hone);
        [apply Hsub; left|].
      cbn [app]. repeat split.
      * destruct ev; try discriminate; simpl; now rewrite A.
      * now apply one_at_a_time_pair.
      * intros e He.
        apply elem_of_cons in He as [->|He];
          [exists f; repeat split; [left | exact N]|].
        apply elem_of_cons in He as [->|He];
          [exists f; repeat split; [left | exact N | exact Hev]|].
        destruct (C e He) as (g & Hg & Ng & Eg).
        exists g. repeat split; [now right | exact Ng | exact Eg].
    + destruct (IH k Hrest) as (A & B & C). repeat split; auto.
      intros e He. destruct (C e He) as (g & Hg & Ng & Eg).
      exists g. repeat split; [now right | exact Ng | exact Eg].
Qed.
End GenerateAll.

(** An analysis event about another item leaves an item as it is. *)
Lemma step_other_item st ev i k f :
  analysis_of ev = Some i -> id f <> i ->
  st !! k = Some f -> step st ev !! k = Some f.
Proof.
  intros A N H.
  destruct ev; try discriminate; injection A as ->; simpl;
    unfold analysis_started, analysis_succeeded, analysis_failed,
      updateImageFile;
    rewrite list_lookup_fmap, H; simpl;
    now rewrite bool_decide_eq_false_2.
Qed.

Lemma run_other_items evs : forall st k f,
  (forall ev, ev ∈ evs -> exists i, analysis_of ev = Some i /\ id f <> i) ->
  st !! k = Some f -> run evs st !! k = Some f.
Proof.
  induction evs as [|ev r IH]; intros st k f Hev H; [exact H|].
  simpl. apply IH.
  - intros e He. apply Hev. now right.
  - destruct (Hev ev) as (i & A & N); [left|].
    now apply (step_other_item st ev i).
Qed.

Lemma NoDup_id_inj (l : list ImageFile) (f g : ImageFile) :
  NoDup (map id l) -> f ∈ l -> g ∈ l -> id f = id g -> f = g.
Proof.
  intros ND Hf Hg E.
  apply list_elem_of_lookup in Hf as [a Ha].
  apply list_elem_of_lookup in Hg as [b Hb].
  assert (a = b).
  { eapply (proj1 (NoDup_alt (map id l)) ND a b (id f)).
    - change (map id l) with (id <$> l). now rewrite list_lookup_fmap, Ha.
    - change (map id l) with (id <$> l). rewrite list_lookup_fmap, Hb.
      simpl. now rewrite E. }
  subst b. congruence.
Qed.

(** C5. "Generate All" starts an analysis for exactly the items that
    are [IDLE] or [ERROR] when it is called, in the order of the
    collection, each analysis completing before the next starts; an item
    that is [SUCCESS] when it is called (items having distinct
    identities) is the same record afterwards, status and metadata
    included. *)
Theorem C5_generate_all :
  forall (analyze : nat -> File -> thrown + ImageMetadata)
         (imageFiles : list ImageFile),
    let evs := handleGenerateAllMetadata analyze imageFiles in
    started evs
    = map id (List.filter
                (fun f => AppStatus_eqb (status f) IDLE
                          || AppStatus_eqb (status f) ERROR) imageFiles)
    /\ one_at_a_time evs = true
    /\ (NoDup (map id imageFiles) ->
        forall k f, imageFiles !! k = Some f -> status f = SUCCESS ->
                    run evs imageFiles !! k = Some f).
Proof.
  intros analyze imageFiles evs. subst evs. unfold handleGenerateAllMetadata.
  destruct (generateAll_loop_spec analyze imageFiles imageFiles 0)
    as (A & B & C); [auto|].
  split; [exact A|]. split; [exact B|].
  intros ND k f Hk Hs. apply run_other_items; [|exact Hk].
  intros ev Hev. destruct (C ev Hev) as (g & Hg & Ng & Eg).
  exists (id g). split; [exact Eg|].
  intros E.
  assert (f = g).
  { apply (NoDup_id_inj imageFiles); auto.
    apply list_elem_of_lookup. eauto. }
  subst g. rewrite Hs in Ng. discriminate.
Qed.

Lemma C5_witness :
  let imageFiles :=
    [ sample_item 0 (lit "a.png")
        (Some (sample_metadata (lit "elf") [lit "b"])) SUCCESS None;
      sample_item 1 (lit "b.png") None IDLE None ] in
  let analyze := fun (k : nat) (_ : File) =>
    @inr thrown _ (sample_metadata (lit "orc") [lit "c"]) in
  NoDup (map id imageFiles)
  /\ run (handleGenerateAllMetadata analyze imageFiles) imageFiles
     = [ sample_item 0 (lit "a.png")
           (Some (sample_metadata (lit "elf") [lit "b"])) SUCCESS None;
         sample_item 1 (lit "b.png")
           (Some (sample_metadata (lit "orc") [lit "c"])) SUCCESS None ]
  /\ run (handleGenerateAllMetadata analyze imageFiles) imageFiles !! 0%nat
     = Some (sample_item 0 (lit "a.png")
               (Some (sample_metadata (lit "elf") [lit "b"])) SUCCESS None).
Proof.
  intros imageFiles analyze.
  assert (ND : NoDup (map id imageFiles)).
  { apply (bool_decide_unpack _). vm_compute. exact I. }
  split; [exact ND|]. split; [vm_compute; reflexivity|].
  destruct (C5_generate_all analyze imageFiles) as (_ & _ & H).
  apply (H ND 0%nat); reflexivity.
Defined.

(** ** Export *)

Section ExportProperties.
Variable toJpeg : jsstring -> option jsstring.
Variable embed : Zeroth -> jsstring -> option Blob.

(** A conversion that fails for any item ends the loop with an
    exception, whatever the other items are. *)
Lemma export_loop_decode_failure files f :
  f ∈ files -> metadata f <> None -> toJpeg (previewUrl f) = None ->
  forall zip log, export_loop toJpeg embed files zip log = None.
Proof.
  induction files as [|g rest IH]; intros Hf M T zip log.
  - now apply elem_of_nil in Hf.
  - simpl. apply elem_of_cons in Hf as [<-|Hf].
    + destruct (metadata f); [|congruence]. now rewrite T.
    + destruct (metadata g); [|now apply IH].
      destruct (toJpeg (previewUrl g)); [|reflexivity].
      destruct (embed _ _); now apply IH.
Qed.

End ExportProperties.







(** C2, at the failing input: two analysed items; the conversion of the
    first one to JPEG fails.  The rejection is raised outside the [try]
    block: it leaves the loop, no archive is made, the second item is
    never processed and [isZipping] stays set.  When it is the embedding
    of the first item that fails, the failure is caught and logged and
    the archive holds the second item. *)
Theorem C2_decode_failure_escapes :
  let imageFiles := sample_export (lit "elf") (lit "orc") in
  processAndDownloadAll (sample_toJpeg [lit "blob:0"]) (sample_embed [])
    true true imageFiles false = (Unhandled, true)
  /\ processAndDownloadAll (sample_toJpeg []) (sample_embed [lit "blob:0"])
       true true imageFiles false
     = (Download {[ lit "orc.jpg" := toUcs2Bytes (lit "c") ]} [lit "a.png"],
        false).
Proof. vm_compute. split; reflexivity. Qed.

(** The same for every collection: one failed conversion anywhere ends
    the export without an archive. *)
Lemma decode_failure_aborts_export toJpeg embed imageFiles isZipping f :
  f ∈ imageFiles -> exportable f = true -> toJpeg (previewUrl f) = None ->
  processAndDownloadAll toJpeg embed true true imageFiles isZipping
  = (Unhandled, true).
Proof.
  intros Hf E T. unfold processAndDownloadAll. simpl.
  rewrite (export_loop_decode_failure toJpeg embed _ f); [reflexivity | | | exact T].
  - apply list_elem_of_In, List.filter_In. split; [now apply list_elem_of_In | exact E].
  - unfold exportable in E. apply andb_true_iff in E as [_ E].
    apply bool_decide_eq_true in E. destruct E as [md E]. congruence.
Qed.

(** An embedding failure is caught: the item is logged and left out, and
    the loop goes on with the next one. *)
Lemma embed_failure_skipped toJpeg embed f md url rest zip log :
  metadata f = Some md -> toJpeg (previewUrl f) = Some url ->
  embed (zeroth_of md) url = None ->
  export_loop toJpeg embed (f :: rest) zip log
  = export_loop toJpeg embed rest zip (log ++ [name (file f)]).
Proof. intros M T E. simpl. now rewrite M, T, E. Qed.

(* ===================================================================== *)
(** * Part 3: further properties of the sources *)
(* ===================================================================== *)

(** ** Splitting at commas *)

Lemma split_cons_other (sep : Z -> bool) (c : Z) (s : jsstring) :
  sep c = false ->
  exists p ps, split sep s = p :: ps /\ split sep (c :: s) = (c :: p) :: ps.
Proof.
  intros E. simpl. rewrite E.
  destruct (split sep s) as [|p ps] eqn:S; [|eauto].
  destruct s as [|d s]; simpl in S; [discriminate|].
  destruct (sep d); [discriminate|]. destruct (split sep s); discriminate.
Qed.

Lemma split_app_sep (sep : Z -> bool) (a : jsstring) (c : Z) (r : jsstring) :
  forallb (fun x => negb (sep x)) a = true -> sep c = true ->
  split sep (a ++ c :: r) = a :: split sep r.
Proof.
  intros Ha Hc. induction a as [|x a IH]; simpl.
  - now rewrite Hc.
  - simpl in Ha. apply andb_true_iff in Ha as [Hx Ha].
    apply negb_true_iff in Hx. rewrite Hx, (IH Ha). reflexivity.
Qed.

Lemma split_pieces (sep : Z -> bool) (s : jsstring) :
  Forall (fun p => forallb (fun x => negb (sep x)) p = true) (split sep s).
Proof.
  induction s as [|c s IH]; simpl; [repeat constructor|].
  destruct (sep c) eqn:E; [constructor; [reflexivity | exact IH]|].
  destruct (split sep s) as [|p ps]; [repeat constructor; simpl; now rewrite E|].
  inversion IH as [|? ? Hp Hps]; subst. constructor; [|exact Hps].
  simpl. now rewrite E, Hp.
Qed.

(** X7. The base64 payload handed to the service is what follows the
    comma of the data URL: for a header and a payload without a comma the
    part holds the payload and the MIME type of the file.  A result that
    is not a string gives the empty payload, a string without a comma
    gives none. *)
Theorem X7_data_url_payload :
  forall (f : File) (header payload : jsstring),
    forallb (fun c => negb (is_comma c)) header = true ->
    forallb (fun c => negb (is_comma c)) payload = true ->
    fileToGenerativePart f (Some (header ++ lit "," ++ payload))
    = {| data := Some payload; mimeType := type f |}
    /\ fileToGenerativePart f (Some header)
       = {| data := None; mimeType := type f |}
    /\ fileToGenerativePart f None = {| data := Some []; mimeType := type f |}.
Proof.
  intros f header payload Hh Hp. unfold fileToGenerativePart.
  split; [|split; [|reflexivity]].
  - change (header ++ lit "," ++ payload) with (header ++ 44 :: payload).
    rewrite (split_app_sep is_comma header 44 payload Hh eq_refl).
    now rewrite (split_no_sep is_comma payload Hp).
  - now rewrite (split_no_sep is_comma header Hh).
Qed.

Lemma X7_witness :
  fileToGenerativePart (sample_file (lit "a.png"))
    (Some (lit "data:image/png;base64,iVBORw0KGgo="))
  = {| data := Some (lit "iVBORw0KGgo="); mimeType := lit "image/png" |}.
Proof.
  destruct (X7_data_url_payload (sample_file (lit "a.png"))
              (lit "data:image/png;base64") (lit "iVBORw0KGgo=")
              eq_refl eq_refl) as [H _].
  exact H.
Defined.

(** ** The tag editor of a card *)

Lemma trim_ws_cons (c : Z) (s : jsstring) :
  is_ws c = true -> trim (c :: s) = trim s.
Proof. intros E. unfold trim. simpl. now rewrite E. Qed.

Lemma trim_id (t : jsstring) : trimmed t -> trim t = t.
Proof.
  intros (_ & Hl & Hr). unfold trim.
  rewrite (dropWhile_id is_ws t Hl), (dropWhile_id is_ws (rev t) Hr).
  apply rev_involutive.
Qed.

Lemma dropWhile_In {A} (p : A -> bool) (l : list A) (x : A) :
  In x (dropWhile p l) -> In x l.
Proof.
  induction l as [|y r IH]; simpl; [tauto|].
  destruct (p y); simpl; tauto.
Qed.

Lemma trim_In (s : jsstring) (x : Z) : In x (trim s) -> In x s.
Proof.
  unfold trim. intros H. apply in_rev, dropWhile_In, in_rev in H.
  now apply dropWhile_In in H.
Qed.

Lemma parse_tags_cons (p rest : jsstring) :
  plain_tag p ->
  parse_tags (p ++ lit ", " ++ rest) = p :: parse_tags rest.
Proof.
  intros [Ht Hc]. unfold parse_tags.
  change (p ++ lit ", " ++ rest) with (p ++ 44 :: 32 :: rest).
  rewrite (split_app_sep is_comma p 44 (32 :: rest) Hc eq_refl).
  destruct (split_cons_other is_comma 32 rest eq_refl) as (q & qs & -> & ->).
  simpl. rewrite (trim_id p Ht), (trim_ws_cons 32 q eq_refl).
  destruct Ht as [Hne _].
  now rewrite bool_decide_eq_false_2 by exact Hne.
Qed.

Lemma parse_tags_one (p : jsstring) : plain_tag p -> parse_tags p = [p].
Proof.
  intros [Ht Hc]. unfold parse_tags.
  rewrite (split_no_sep is_comma p Hc). simpl. rewrite (trim_id p Ht).
  destruct Ht as [Hne _].
  now rewrite bool_decide_eq_false_2 by exact Hne.
Qed.

Lemma parse_tags_join (ts : list jsstring) :
  Forall plain_tag ts -> parse_tags (join (lit ", ") ts) = ts.
Proof.
  induction 1 as [|p ts Hp Hts IH]; [reflexivity|].
  destruct ts as [|q ts]; [now apply parse_tags_one|].
  change (join (lit ", ") (p :: q :: ts))
    with (p ++ lit ", " ++ join (lit ", ") (q :: ts)).
  now rewrite (parse_tags_cons p _ Hp), IH.
Qed.

Lemma parse_tags_plain (input : jsstring) : Forall plain_tag (parse_tags input).
Proof.
  pose proof (parse_tags_trimmed input) as Ht.
  rewrite Forall_forall in Ht. apply Forall_forall. intros t Hin.
  split; [now apply Ht|].
  unfold parse_tags in Hin.
  apply list_elem_of_In, List.filter_In in Hin as [Hin _].
  apply List.in_map_iff in Hin as (s & <- & Hs).
  pose proof (split_pieces is_comma input) as Hp.
  rewrite Forall_forall in Hp. specialize (Hp s (proj2 (list_elem_of_In _ _) Hs)).
  apply forallb_forall. intros x Hx. apply trim_In in Hx.
  rewrite forallb_forall in Hp. now apply Hp.
Qed.

(** X14. The tag field of a card shows the tags joined with [", "] and
    reads them back by splitting at the commas: tags that are trimmed,
    not empty and without a comma come back as they are. *)
Theorem X14_tag_field_round_trip :
  forall (imageFile : ImageFile) (md : ImageMetadata),
    metadata imageFile = Some md ->
    Forall plain_tag (tags md) ->
    handleTagsChange imageFile (join (lit ", ") (tags md)) = Some md.
Proof.
  intros f md M H. unfold handleTagsChange. rewrite M.
  rewrite (parse_tags_join (tags md) H). now destruct md.
Qed.

Lemma X14_witness :
  handleTagsChange
    (sample_item 0 (lit "a.png")
       (Some (sample_metadata (lit "elf") [lit "dark elf"; lit "bow"]))
       SUCCESS None)
    (lit "dark elf, bow")
  = Some (sample_metadata (lit "elf") [lit "dark elf"; lit "bow"]).
Proof.
  apply (X14_tag_field_round_trip
           (sample_item 0 (lit "a.png")
              (Some (sample_metadata (lit "elf") [lit "dark elf"; lit "bow"]))
              SUCCESS None)
           (sample_metadata (lit "elf") [lit "dark elf"; lit "bow"]) eq_refl).
  repeat constructor; simpl; discriminate.
Defined.

(** X15. Whatever is typed into a tag field, the tags read from it have
    no comma, and showing them and reading them again gives the same
    tags: the field is stable once it has been parsed. *)
Theorem X15_parsed_tags_stable :
  forall input : jsstring,
    Forall (fun t => forallb (fun c => negb (is_comma c)) t = true)
           (parse_tags input)
    /\ parse_tags (join (lit ", ") (parse_tags input)) = parse_tags input.
Proof.
  intros input. pose proof (parse_tags_plain input) as H. split.
  - eapply Forall_impl; [exact H|]. now intros t [_ Hc].
  - now apply parse_tags_join.
Qed.

(** ** The UCS-2 encoding, read back *)

Lemma byte_pair_inj (c d : Z) :
  c mod 256 = d mod 256 -> c / 256 = d / 256 -> c = d.
Proof.
  intros Hm Hd.
  rewrite (Z.div_mod c 256), (Z.div_mod d 256) by lia. now rewrite Hm, Hd.
Qed.

Lemma byte_pairs_inj (s1 s2 : jsstring) :
  flat_map (fun c => [c mod 256; c / 256]) s1
  = flat_map (fun c => [c mod 256; c / 256]) s2 -> s1 = s2.
Proof.
  revert s2. induction s1 as [|c s1 IH]; intros [|d s2] H; simpl in H;
    try discriminate; [reflexivity|].
  injection H as Hm Hd H. f_equal; [now apply byte_pair_inj | now apply IH].
Qed.

(** X1. The encoding loses nothing: two strings of UTF-16 code units
    with the same bytes are the same string. *)
Theorem X1_toUcs2Bytes_injective :
  forall s1 s2 : jsstring,
    Forall code_unit s1 -> Forall code_unit s2 ->
    toUcs2Bytes s1 = toUcs2Bytes s2 -> s1 = s2.
Proof.
  intros s1 s2 H1 H2 E.
  rewrite (toUcs2Bytes_flat_map s1 H1), (toUcs2Bytes_flat_map s2 H2) in E.
  apply app_inv_tail in E. now apply byte_pairs_inj.
Qed.

Lemma X1_witness :
  Forall code_unit (lit "elf") /\ Forall code_unit [101; 108; 102]
  /\ toUcs2Bytes (lit "elf") = toUcs2Bytes [101; 108; 102]
  /\ lit "elf" = [101; 108; 102].
Proof.
  assert (H : Forall code_unit (lit "elf"))
    by (repeat constructor; unfold code_unit; simpl; lia).
  split; [exact H|]. split; [exact H|]. split; [reflexivity|].
  exact (X1_toUcs2Bytes_injective (lit "elf") [101; 108; 102] H H eq_refl).
Defined.

Lemma byte_pairs_lookup (s : jsstring) (tail : list Z) (i : nat) (c : Z) :
  s !! i = Some c ->
  (flat_map (fun c => [c mod 256; c / 256]) s ++ tail) !! (2 * i)%nat
  = Some (c mod 256)
  /\ (flat_map (fun c => [c mod 256; c / 256]) s ++ tail) !! (2 * i + 1)%nat
     = Some (c / 256).
Proof.
  revert i. induction s as [|d s IH]; intros i H; [discriminate|].
  destruct i as [|i]; simpl in H.
  - injection H as ->. split; reflexivity.
  - destruct (IH i H) as [A B].
    replace (2 * S i)%nat with (S (S (2 * i))) by lia.
    replace (S (S (2 * i)) + 1)%nat with (S (S (2 * i + 1))) by lia.
    split; [exact A | exact B].
Qed.

Lemma byte_pairs_end (s : jsstring) (tail : list Z) (j : nat) :
  (flat_map (fun c => [c mod 256; c / 256]) s ++ tail) !! (2 * length s + j)%nat
  = tail !! j.
Proof.
  induction s as [|d s IH]; [reflexivity|].
  simpl length. replace (2 * S (length s) + j)%nat
    with (S (S (2 * length s + j))) by lia.
  exact IH.
Qed.

(** X2. In the bytes of a string of code units, the aligned pairs of
    zero bytes are the NUL characters of the string and the terminator:
    for a string without NUL, the first such pair ends the text. *)
Theorem X2_toUcs2Bytes_terminator :
  forall (str : jsstring) (i : nat),
    Forall code_unit str ->
    (toUcs2Bytes str !! (2 * i)%nat = Some 0
     /\ toUcs2Bytes str !! (2 * i + 1)%nat = Some 0)
    <-> (str !! i = Some 0 \/ i = length str).
Proof.
  intros str i H. rewrite (toUcs2Bytes_flat_map str H).
  destruct (str !! i) as [c|] eqn:L.
  - destruct (byte_pairs_lookup str [0; 0] i c L) as [-> ->].
    apply lookup_lt_Some in L. split.
    + intros [Hm Hd]. left. f_equal.
      injection Hm as Hm. injection Hd as Hd.
      apply (byte_pair_inj c 0); [exact Hm | exact Hd].
    + intros [E|E]; [|lia]. injection E as ->. split; reflexivity.
  - apply lookup_ge_None in L. split.
    + intros [Hm _]. right.
      destruct (decide (i = length str)) as [|N]; [assumption|].
      apply lookup_lt_Some in Hm. rewrite length_app in Hm. simpl in Hm.
      assert (Hl : length (flat_map (fun c => [c mod 256; c / 256]) str)
                   = (2 * length str)%nat).
      { clear. induction str as [|c s IH]; simpl; lia. }
      lia.
    + intros [E| ->]; [discriminate|].
      pose proof (byte_pairs_end str [0; 0] 0) as A.
      pose proof (byte_pairs_end str [0; 0] 1) as B.
      rewrite Nat.add_0_r in A. split; [exact A | exact B].
Qed.

Lemma X2_witness :
  Forall code_unit (lit "elf") /\ toUcs2Bytes (lit "elf") !! 6%nat = Some 0
  /\ toUcs2Bytes (lit "elf") !! 7%nat = Some 0.
Proof.
  assert (H : Forall code_unit (lit "elf"))
    by (repeat constructor; unfold code_unit; simpl; lia).
  split; [exact H|].
  apply (proj2 (X2_toUcs2Bytes_terminator (lit "elf") 3 H)). right. reflexivity.
Defined.

(** ** Size of a cleaned filename *)

Lemma existsb_pointwise {A} (p q : A -> bool) (l : list A) :
  (forall x, p x = q x) -> existsb p l = existsb q l.
Proof.
  intros H. induction l as [|x l IH]; simpl; [reflexivity|].
  now rewrite H, IH.
Qed.

Lemma existsb_delete_chars (p cls : Z -> bool) (s : jsstring) :
  (forall c, cls c = true -> p c = false) ->
  existsb p (delete_chars cls s) = existsb p s.
Proof.
  intros H. unfold delete_chars. induction s as [|c s IH]; simpl; [reflexivity|].
  destruct (cls c) eqn:E; simpl; rewrite IH; [|reflexivity].
  now rewrite (H c E).
Qed.

Lemma delete_chars_length cls (s : jsstring) :
  (length (delete_chars cls s) <= length s)%nat.
Proof.
  unfold delete_chars. induction s as [|c s IH]; simpl; [lia|].
  destruct (cls c); simpl; lia.
Qed.

Lemma delete_chars_nil cls (s : jsstring) :
  delete_chars cls s = [] <-> existsb (fun c => negb (cls c)) s = false.
Proof.
  unfold delete_chars. induction s as [|c s IH]; simpl; [tauto|].
  destruct (cls c); simpl; [exact IH|]. split; discriminate.
Qed.

Lemma collapse_runs_length cls least repl (s : jsstring) :
  (1 <= least)%nat -> (length repl <= least)%nat ->
  (length (collapse_runs cls least repl s) <= length s)%nat.
Proof.
  intros L1 L2. remember (length s) as n eqn:Hn.
  assert (Hle : (length s <= n)%nat) by lia.
  rewrite Hn. clear Hn. revert s Hle.
  induction n as [|n IH]; intros s Hle.
  - destruct s; [simpl; lia | simpl in Hle; lia].
  - destruct s as [|c r]; [simpl; lia|]. simpl in Hle.
    destruct (cls c) eqn:E.
    + rewrite (collapse_run_in cls least repl c r E), length_app.
      pose proof (dropWhile_length cls r) as D.
      specialize (IH (dropWhile cls r) ltac:(lia)).
      pose proof (f_equal (@length Z) (takeWhile_dropWhile cls r)) as T.
      rewrite length_app in T. unfold run_head.
      destruct (least <=? S (length (takeWhile cls r)))%nat eqn:B.
      * apply Nat.leb_le in B. simpl. lia.
      * simpl. lia.
    + rewrite (collapse_run_out cls least repl c r E). simpl.
      specialize (IH r ltac:(lia)). lia.
Qed.

Lemma collapse_runs_nil cls least repl (s : jsstring) :
  repl <> [] -> collapse_runs cls least repl s = [] <-> s = [].
Proof.
  intros R. destruct s as [|c r]; [tauto|].
  split; [|discriminate]. destruct (cls c) eqn:E.
  - rewrite (collapse_run_in cls least repl c r E). unfold run_head.
    destruct (least <=? _)%nat; [|discriminate].
    destruct repl; [congruence | discriminate].
  - rewrite (collapse_run_out cls least repl c r E). discriminate.
Qed.

Lemma existsb_kebab_collapse_ws (s : jsstring) :
  existsb is_kebab (collapse_runs is_ws 1 (lit "-") s)
  = existsb (fun c => is_kebab c || is_ws c) s.
Proof.
  induction s as [|c r IH]; [reflexivity|].
  destruct (is_ws c) eqn:E.
  - rewrite (collapse_run_in is_ws 1 (lit "-") c r E). simpl.
    rewrite E. now rewrite orb_true_r.
  - rewrite (collapse_run_out is_ws 1 (lit "-") c r E). simpl.
    now rewrite IH, E, orb_false_r.
Qed.

(** X3. The cleaned filename is never longer than the lowercased one,
    and it is empty exactly when the lowercased filename has no
    whitespace and no character of [[a-z0-9-]]: a filename that passed
    the guard as non-empty can come back empty. *)
Theorem X3_normalize_filename_size :
  forall (toLowerCase : jsstring -> jsstring) (s : jsstring),
    (length (normalize_filename toLowerCase s) <= length (toLowerCase s))%nat
    /\ (normalize_filename toLowerCase s = []
        <-> existsb (fun c => is_kebab c || is_ws c) (toLowerCase s) = false).
Proof.
  intros lower s. rewrite normalize_filename_spec. unfold spec_normalize. split.
  - pose proof (collapse_runs_length is_hyphen 2 (lit "-")
                  (delete_chars (fun c => negb (is_kebab c))
                     (collapse_runs is_ws 1 (lit "-")
                        (delete_chars is_backtick (lower s))))) as A.
    pose proof (delete_chars_length (fun c => negb (is_kebab c))
                  (collapse_runs is_ws 1 (lit "-")
                     (delete_chars is_backtick (lower s)))) as B.
    pose proof (collapse_runs_length is_ws 1 (lit "-")
                  (delete_chars is_backtick (lower s))) as C.
    pose proof (delete_chars_length is_backtick (lower s)) as D.
    simpl in A, C. lia.
  - rewrite collapse_runs_nil by discriminate.
    rewrite delete_chars_nil.
    rewrite (existsb_pointwise _ is_kebab) by (intros c; apply negb_involutive).
    rewrite existsb_kebab_collapse_ws.
    rewrite existsb_delete_chars; [reflexivity|].
    intros c Hc. unfold is_backtick in Hc. unfold is_kebab, is_ws. lia.
Qed.

(** ** Outcomes of the Gemini service *)

Lemma lookup_assign_eq key x props :
  lookup_prop key (assign_prop key x props) = Some x.
Proof.
  induction props as [|[k v] r IH]; simpl.
  - now rewrite bool_decide_eq_true_2.
  - destruct (bool_decide (k = key)) eqn:D; simpl; rewrite D; [reflexivity | exact IH].
Qed.

Lemma lookup_assign_ne key k x props :
  k <> key -> lookup_prop k (assign_prop key x props) = lookup_prop k props.
Proof.
  intros N. induction props as [|[k' v] r IH]; simpl.
  - rewrite bool_decide_eq_false_2; [reflexivity | congruence].
  - destruct (bool_decide (k' = key)) eqn:D; simpl.
    + apply bool_decide_eq_true in D. subst k'.
      now rewrite !bool_decide_eq_false_2 by congruence.
    + destruct (bool_decide (k' = k)); [reflexivity | exact IH].
Qed.

(** X4. Whatever goes wrong, the caller of the service sees one of two
    messages: the parse message when the exception is a [SyntaxError]
    (also one thrown by the call to the model), the generic message in
    every other case; the exception itself is never passed on. *)
Theorem X4_service_messages :
  forall (toLowerCase : jsstring -> jsstring)
         (JSON_parse : jsstring -> option value),
    (forall e,
        analyzeImageAndSuggestMetadata toLowerCase JSON_parse (inl e)
        = throw (Error match e with
                       | SyntaxError => parse_message
                       | _ => analyze_message
                       end))
    /\ (forall response,
        match analyzeImageAndSuggestMetadata toLowerCase JSON_parse response with
        | inr md => analyze_body toLowerCase JSON_parse response = ret md
        | inl e => e = Error parse_message \/ e = Error analyze_message
        end).
Proof.
  intros lower parse. split.
  - intros e. unfold analyzeImageAndSuggestMetadata, analyze_body. simpl.
    now destruct e.
  - intros response. unfold analyzeImageAndSuggestMetadata.
    destruct (analyze_body lower parse response) as [[]|]; simpl; auto.
Qed.

(** X5. A response that passes comes back with its [filename] replaced
    by the cleaned one, which is in normalized form, and with every other
    property as it was parsed. *)
Theorem X5_service_result :
  forall (toLowerCase : jsstring -> jsstring)
         (JSON_parse : jsstring -> option value) (text : jsstring) (md : value),
    analyze_body toLowerCase JSON_parse (inr text) = ret md ->
    exists v s,
      JSON_parse (trim text) = Some v
      /\ prop v (lit "filename") = VStr s
      /\ prop md (lit "filename") = VStr (normalize_filename toLowerCase s)
      /\ normalized (normalize_filename toLowerCase s) = true
      /\ (forall key, key <> lit "filename" -> prop md key = prop v key).
Proof.
  intros lower parse text md H.
  destruct (parse (trim text)) as [v|] eqn:P.
  2:{ rewrite (analyze_body_unparsed lower parse text P) in H. discriminate. }
  rewrite (analyze_body_parsed lower parse text v P) in H.
  destruct v as [| | b | nz | s | elems | props]; try discriminate;
    try (destruct (rejected _); discriminate).
  destruct (rejected (VObj props)); [discriminate|].
  destruct (prop (VObj props) (lit "filename")) as [| | | |s| |] eqn:F;
    try discriminate.
  simpl in H. injection H as <-.
  exists (VObj props), s. split; [reflexivity|]. split; [exact F|].
  split; [|split].
  - simpl. now rewrite lookup_assign_eq.
  - rewrite normalize_filename_spec. apply spec_normalize_normalized.
  - intros key N. simpl. now rewrite lookup_assign_ne.
Qed.

Lemma X5_witness :
  exists v s,
    parse_const (sample_response (lit "Elf  Archer") []) (trim (lit "r")) = Some v
    /\ prop v (lit "filename") = VStr s
    /\ prop (sample_response (lit "elf-archer") []) (lit "filename")
       = VStr (normalize_filename ascii_toLowerCase s)
    /\ normalized (normalize_filename ascii_toLowerCase s) = true
    /\ (forall key, key <> lit "filename" ->
        prop (sample_response (lit "elf-archer") []) key = prop v key).
Proof.
  apply (X5_service_result ascii_toLowerCase
           (parse_const (sample_response (lit "Elf  Archer") [])) (lit "r")).
  vm_compute. reflexivity.
Defined.

(** X6. A [filename] that is truthy without being a string (a number
    other than zero, [true], an array, an object) passes the guard; the
    clean-up then fails on it, and the caller gets the generic message. *)
Theorem X6_filename_not_a_string :
  forall (toLowerCase : jsstring -> jsstring)
         (JSON_parse : jsstring -> option value) (text : jsstring)
         (props : list (jsstring * value)) (x : value),
    JSON_parse (trim text) = Some (VObj props) ->
    lookup_prop (lit "filename") props = Some x ->
    truthy x = true -> is_string x = false ->
    truthy (prop (VObj props) (lit "title")) = true ->
    truthy (prop (VObj props) (lit "description")) = true ->
    isArray (prop (VObj props) (lit "tags")) = true ->
    analyze_body toLowerCase JSON_parse (inr text) = throw TypeError
    /\ analyzeImageAndSuggestMetadata toLowerCase JSON_parse (inr text)
       = throw (Error analyze_message).
Proof.
  intros lower parse text props x P F Tx Sx T D A.
  assert (B : analyze_body lower parse (inr text) = throw TypeError).
  { rewrite (analyze_body_parsed lower parse text _ P).
    replace (rejected (VObj props)) with false.
    - simpl. rewrite F. simpl. destruct x; try reflexivity. discriminate.
    - symmetry. unfold rejected. rewrite T, D, A. simpl prop. rewrite F.
      simpl. now rewrite Tx. }
  split; [exact B|]. unfold analyzeImageAndSuggestMetadata. now rewrite B.
Qed.

Lemma X6_witness :
  analyze_body ascii_toLowerCase
    (parse_const (VObj [ (lit "filename", VNum true);
                         (lit "title", VStr (lit "Elf"));
                         (lit "description", VStr (lit "An elf."));
                         (lit "tags", VArr []) ]))
    (inr (lit "r"))
  = throw TypeError
  /\ analyzeImageAndSuggestMetadata ascii_toLowerCase
       (parse_const (VObj [ (lit "filename", VNum true);
                            (lit "title", VStr (lit "Elf"));
                            (lit "description", VStr (lit "An elf."));
                            (lit "tags", VArr []) ]))
       (inr (lit "r"))
     = throw (Error analyze_message).
Proof.
  apply (X6_filename_not_a_string ascii_toLowerCase
           (parse_const (VObj [ (lit "filename", VNum true);
                                (lit "title", VStr (lit "Elf"));
                                (lit "description", VStr (lit "An elf."));
                                (lit "tags", VArr []) ]))
           (lit "r")
           [ (lit "filename", VNum true); (lit "title", VStr (lit "Elf"));
             (lit "description", VStr (lit "An elf."));
             (lit "tags", VArr []) ]
           (VNum true)); reflexivity.
Defined.

(** ** Identities of the items *)

Lemma map_id_updateImageFile i updates st :
  map id (updateImageFile i updates st) = map id st.
Proof.
  unfold updateImageFile. rewrite map_map. apply map_ext.
  intros f. now destruct (bool_decide (id f = i)).
Qed.

Lemma map_id_card_edit (k : nat) e st : map id (card_edit k e st) = map id st.
Proof.
  unfold card_edit. destruct (st !! k) as [g|]; [|reflexivity].
  destruct (match e with
            | EditField fld v => handleInputChange g fld v
            | EditTags v => handleTagsChange g v
            end); [apply map_id_updateImageFile | reflexivity].
Qed.

Lemma spec_merge_id newTags f : id (spec_merge newTags f) = id f.
Proof.
  unfold spec_merge. destruct (status f); auto. destruct (metadata f); auto.
Qed.

Lemma map_id_handleApplyCustomTags input st :
  map id (handleApplyCustomTags input st) = map id st.
Proof.
  rewrite handleApplyCustomTags_cases. destruct (bool_decide _); [reflexivity|].
  rewrite map_map. apply map_ext. intros f. apply spec_merge_id.
Qed.

Lemma map_id_handleDeleteFile i st :
  map id (handleDeleteFile i st)
  = List.filter (fun j => negb (bool_decide (j = i))) (map id st).
Proof.
  unfold handleDeleteFile. induction st as [|f st IH]; simpl; [reflexivity|].
  destruct (bool_decide (id f = i)); simpl; now rewrite IH.
Qed.

Lemma map_id_imap {A} (g : nat -> A -> ImageFile) (h : nat -> jsstring)
    (l : list A) : forall n,
  (forall k x, id (g k x) = h (n + k)%nat) ->
  map id (imap g l) = map h (seq n (length l)).
Proof.
  revert g. induction l as [|x l IH]; intros g n H; [reflexivity|].
  simpl. f_equal.
  - rewrite H. f_equal. lia.
  - apply IH. intros k y. unfold compose. rewrite H. f_equal. lia.
Qed.

Lemma map_id_handleFileSelect selectedFiles fresh st :
  map id (handleFileSelect selectedFiles fresh st)
  = map id st ++ new_ids selectedFiles fresh.
Proof.
  unfold handleFileSelect, new_ids. rewrite map_app. f_equal.
  now apply map_id_imap.
Qed.

Lemma uuids_fresh_step st ev :
  match ev with
  | FilesSelected selectedFiles fresh =>
    NoDup (map id st ++ new_ids selectedFiles fresh)
  | _ => True
  end ->
  NoDup (map id st) -> NoDup (map id (step st ev)).
Proof.
  intros Hf H. destruct ev; simpl.
  - now rewrite map_id_handleFileSelect.
  - unfold analysis_started. now rewrite map_id_updateImageFile.
  - unfold analysis_succeeded. now rewrite map_id_updateImageFile.
  - unfold analysis_failed. now rewrite map_id_updateImageFile.
  - now rewrite map_id_card_edit.
  - rewrite map_id_handleDeleteFile.
    now apply NoDup_ListNoDup, List.NoDup_filter, NoDup_ListNoDup.
  - constructor.
  - now rewrite map_id_handleApplyCustomTags.
Qed.

(** X8. The identities of the items stay distinct through every
    sequence of uploads, analyses, edits, deletions, resets and bulk
    tags, provided each upload is given identities that are distinct and
    not in use. *)
Theorem X8_identities_distinct :
  forall evs : list event,
    uuids_fresh [] evs = true -> NoDup (map id (run evs [])).
Proof.
  intros evs. assert (H : NoDup (map id (@nil ImageFile))) by constructor.
  revert H. generalize (@nil ImageFile) as st.
  induction evs as [|ev r IH]; intros st H F; [exact H|].
  simpl in F. apply andb_true_iff in F as [F1 F2].
  simpl. apply IH; [|exact F2]. apply uuids_fresh_step; [|exact H].
  destruct ev; try exact I. now apply bool_decide_eq_true in F1.
Qed.

Lemma X8_witness :
  uuids_fresh [] overlap_session = true
  /\ NoDup (map id (run overlap_session [])).
Proof.
  assert (H : uuids_fresh [] overlap_session = true) by (vm_compute; reflexivity).
  split; [exact H | exact (X8_identities_distinct overlap_session H)].
Defined.

(** ** Items that wait carry no error *)

Lemma waiting_inv_step st ev :
  Forall waiting_inv st -> Forall waiting_inv (step st ev).
Proof.
  intros H. destruct ev; simpl.
  - apply Forall_handleFileSelect; [exact H|].
    intros f _ _ E. unfold waiting_inv. auto.
  - apply Forall_updateImageFile; [exact H|].
    intros f _ _ _. unfold waiting_inv. auto.
  - apply Forall_updateImageFile; [exact H|].
    intros f _ _ _. unfold waiting_inv. simpl. intros [E|E]; discriminate E.
  - apply Forall_updateImageFile; [exact H|].
    intros f _ _ _. unfold waiting_inv. simpl. intros [E|E]; discriminate E.
  - apply Forall_card_edit; [exact H| |]; intros f md Pf _; exact Pf.
  - now apply Forall_List_filter.
  - constructor.
  - apply Forall_handleApplyCustomTags; [exact H|].
    intros f newTags Pf. unfold waiting_inv.
    now rewrite spec_merge_error, spec_merge_status.
Qed.

Lemma waiting_inv_run evs : forall st,
  Forall waiting_inv st -> Forall waiting_inv (run evs st).
Proof.
  induction evs as [|ev r IH]; intros st H; [exact H|].
  apply IH, waiting_inv_step, H.
Qed.

(** X17. In every session, whatever the order in which analyses start
    and complete, an item that is [IDLE] or [LOADING] has no error
    message: a message is only found on an item in [ERROR] or [SUCCESS]
    status. *)
Theorem X17_waiting_items_have_no_error :
  forall (evs : list event) (f : ImageFile),
    f ∈ run evs [] ->
    status f = IDLE \/ status f = LOADING -> error f = None.
Proof.
  intros evs f Hf.
  pose proof (waiting_inv_run evs [] (List.Forall_nil _)) as H.
  rewrite Forall_forall in H. exact (H f Hf).
Qed.

Lemma X17_witness :
  let f := sample_item 0 (lit "a.png")
             (Some (sample_metadata (lit "elf") [lit "b"])) LOADING None in
  f ∈ run regenerate_session [] /\ error f = None.
Proof.
  intros f. assert (Hf : f ∈ run regenerate_session []) by (vm_compute; left).
  split; [exact Hf|].
  apply (X17_waiting_items_have_no_error regenerate_session f Hf).
  right. reflexivity.
Defined.

(** ** Updates by identity *)

Lemma updateImageFile_absent i updates st :
  i ∉ map id st -> updateImageFile i updates st = st.
Proof.
  intros H. unfold updateImageFile. rewrite <- (map_id st) at 2.
  apply map_ext_in. intros f Hf.
  rewrite bool_decide_eq_false_2; [reflexivity|].
  intros E. apply H. subst i. apply list_elem_of_In, in_map, Hf.
Qed.

Lemma step_absent st ev i :
  analysis_of ev = Some i -> i ∉ map id st -> step st ev = st.
Proof.
  intros A H. destruct ev; try discriminate; injection A as ->; simpl;
    now apply updateImageFile_absent.
Qed.

Lemma handleDeleteFile_absent i st : i ∉ map id (handleDeleteFile i st).
Proof.
  rewrite map_id_handleDeleteFile, list_elem_of_In, List.filter_In.
  intros [_ H]. now rewrite bool_decide_eq_true_2 in H.
Qed.

(** X9. A result that arrives for an item that is no longer in the
    collection changes nothing: after the item was deleted, or the
    collection cleared, the start, the success and the failure of its
    analysis leave the collection as it is. *)
Theorem X9_late_result_dropped :
  forall (st : list ImageFile) (ev : event) (i : jsstring),
    analysis_of ev = Some i ->
    (i ∉ map id st -> step st ev = st)
    /\ step (handleDeleteFile i st) ev = handleDeleteFile i st
    /\ step (handleReset st) ev = handleReset st.
Proof.
  intros st ev i A. split; [apply (step_absent st ev i A)|]. split.
  - apply (step_absent _ ev i A), handleDeleteFile_absent.
  - apply (step_absent _ ev i A). apply not_elem_of_nil.
Qed.

Lemma X9_witness :
  run (firstn 2 regenerate_session
         ++ [FileDeleted (lit "id-0");
             AnalysisSucceeded (lit "id-0") (sample_metadata (lit "elf") [])]) []
  = [].
Proof.
  change (step (handleDeleteFile (lit "id-0")
                  (run (firstn 2 regenerate_session) []))
            (AnalysisSucceeded (lit "id-0") (sample_metadata (lit "elf") []))
          = []).
  destruct (X9_late_result_dropped (run (firstn 2 regenerate_session) [])
              (AnalysisSucceeded (lit "id-0") (sample_metadata (lit "elf") []))
              (lit "id-0") eq_refl) as (_ & H & _).
  rewrite H. vm_compute. reflexivity.
Defined.

Lemma NoDup_id_lookup (st : list ImageFile) (j k : nat) (f g : ImageFile) :
  NoDup (map id st) -> st !! j = Some g -> st !! k = Some f ->
  id g = id f -> j = k.
Proof.
  intros ND Hj Hk E.
  apply (proj1 (NoDup_alt (map id st)) ND j k (id f)).
  - change (map id st) with (id <$> st). rewrite list_lookup_fmap, Hj.
    simpl. now rewrite E.
  - change (map id st) with (id <$> st). now rewrite list_lookup_fmap, Hk.
Qed.

Lemma updateImageFile_insert (st : list ImageFile) (k : nat) (f : ImageFile)
    updates :
  NoDup (map id st) -> st !! k = Some f ->
  updateImageFile (id f) updates st = <[k := spread f updates]> st.
Proof.
  intros ND Hk. apply list_eq. intros j. unfold updateImageFile.
  change (map ?g st) with (g <$> st). rewrite list_lookup_fmap.
  destruct (decide (j = k)) as [->|N].
  - rewrite list_lookup_insert_eq by (now apply lookup_lt_Some in Hk).
    rewrite Hk. simpl. now rewrite bool_decide_eq_true_2.
  - rewrite list_lookup_insert_ne by congruence.
    destruct (st !! j) as [g|] eqn:Hj; [|reflexivity]. simpl.
    rewrite bool_decide_eq_false_2; [reflexivity|].
    intros E. apply N. now apply (NoDup_id_lookup st j k f g).
Qed.

Lemma handleDeleteFile_none i st :
  i ∉ map id st -> handleDeleteFile i st = st.
Proof.
  unfold handleDeleteFile. induction st as [|g st IH]; intros Hi; [reflexivity|].
  simpl. rewrite bool_decide_eq_false_2.
  - simpl. f_equal. apply IH. intros H. apply Hi. now right.
  - intros E. apply Hi. subst i. left.
Qed.

(** X10. Deleting an item removes that item and nothing else: with
    distinct identities, the collection afterwards is the collection
    without the position of the item, the others unchanged and in the
    same order; deleting an identity that is absent changes nothing. *)
Theorem X10_delete_exactly_one :
  forall (st : list ImageFile) (k : nat) (f : ImageFile),
    NoDup (map id st) -> st !! k = Some f ->
    handleDeleteFile (id f) st = delete k st
    /\ (forall i, i ∉ map id st -> handleDeleteFile i st = st).
Proof.
  intros st k f ND Hk. split.
  - rewrite delete_take_drop.
    rewrite <- (take_drop_middle st k f Hk) at 1.
    unfold handleDeleteFile. rewrite List.filter_app. simpl.
    rewrite bool_decide_eq_true_2 by reflexivity. simpl.
    assert (Hkeep : forall l, (forall g, In g l -> exists j, st !! j = Some g /\ j <> k) ->
              List.filter (fun g => negb (bool_decide (id g = id f))) l = l).
    { intros l Hl. induction l as [|g l IH]; [reflexivity|]. simpl.
      destruct (Hl g (or_introl eq_refl)) as (j & Hj & Nj).
      rewrite bool_decide_eq_false_2.
      - simpl. f_equal. apply IH. intros h Hh. apply Hl. now right.
      - intros E. apply Nj. now apply (NoDup_id_lookup st j k f g). }
    rewrite !Hkeep; [reflexivity| |].
    + intros g Hg. apply list_elem_of_In, list_elem_of_lookup in Hg as [j Hj].
      rewrite lookup_drop in Hj. exists (S k + j)%nat. split; [exact Hj | lia].
    + intros g Hg. apply list_elem_of_In, list_elem_of_lookup in Hg as [j Hj].
      apply lookup_take_Some in Hj as [Hj Hlt]. exists j. split; [exact Hj | lia].
  - intros i Hi. now apply handleDeleteFile_none.
Qed.

Lemma X10_witness :
  let st := run overlap_session [] in
  NoDup (map id st)
  /\ handleDeleteFile (lit "id-0") st
     = [sample_item 1 (lit "b.png")
          (Some (sample_metadata (lit "orc") [lit "c"])) SUCCESS
          (Some analyze_message)].
Proof.
  intros st.
  assert (ND : NoDup (map id st))
    by (apply (bool_decide_unpack _); vm_compute; exact I).
  split; [exact ND|].
  destruct (X10_delete_exactly_one st 0
              (sample_item 0 (lit "a.png") None ERROR (Some analyze_message))
              ND eq_refl) as [H _].
  exact H.
Defined.

(** ** One analysis, from start to end *)

Lemma find_by_id_Some i l g :
  find_by_id i l = Some g -> g ∈ l /\ id g = i.
Proof.
  unfold find_by_id. intros H. apply List.find_some in H as [Hin E].
  split; [now apply list_elem_of_In | now apply bool_decide_eq_true in E].
Qed.

Lemma find_by_id_NoDup (l : list ImageFile) (f : ImageFile) :
  NoDup (map id l) -> f ∈ l -> find_by_id (id f) l = Some f.
Proof.
  intros ND Hf. destruct (find_by_id_elem f l Hf) as [g Hg].
  rewrite Hg. f_equal.
  apply find_by_id_Some in Hg as [Hin E].
  now apply (NoDup_id_inj l g f ND).
Qed.

Lemma find_by_id_absent i l : i ∉ map id l -> find_by_id i l = None.
Proof.
  intros H. destruct (find_by_id i l) as [g|] eqn:F; [|reflexivity].
  apply find_by_id_Some in F as [Hin E]. destruct H. subst i.
  apply list_elem_of_In, in_map. now apply list_elem_of_In.
Qed.

Lemma settle_spread (g : ImageFile) (r : thrown + ImageMetadata) :
  match r with
  | inr md =>
    spread (spread g {| set_status := Some LOADING; set_error := Some None;
                        set_metadata := None |})
           {| set_status := Some SUCCESS; set_metadata := Some (Some md);
              set_error := None |}
  | inl err =>
    spread (spread g {| set_status := Some LOADING; set_error := Some None;
                        set_metadata := None |})
           {| set_status := Some ERROR;
              set_error := Some (Some (errorMessage err));
              set_metadata := None |}
  end = settle g r.
Proof. destruct r; reflexivity. Qed.

(** The two updates of one analysis, seen at a position that holds an
    item of that identity. *)
Lemma run_one_analysis_at analyze imageFiles n (f g : ImageFile) st (p : nat) :
  find_by_id (id f) imageFiles = Some f ->
  st !! p = Some g -> id g = id f ->
  run (handleGenerateMetadataForOne analyze imageFiles n (id f)) st !! p
  = Some (settle g (analyze n (file f))).
Proof.
  intros F Hp E. unfold handleGenerateMetadataForOne. rewrite F.
  rewrite <- settle_spread.
  destruct (analyze n (file f)) as [err|md]; simpl;
    unfold analysis_started, analysis_succeeded, analysis_failed,
      updateImageFile;
    rewrite !list_lookup_fmap, Hp; simpl;
    rewrite (bool_decide_eq_true_2 _ E); simpl;
    now rewrite (bool_decide_eq_true_2 _ E).
Qed.

Lemma run_one_analysis_other analyze imageFiles n i (g : ImageFile) st (p : nat) :
  id g <> i -> st !! p = Some g ->
  run (handleGenerateMetadataForOne analyze imageFiles n i) st !! p = Some g.
Proof.
  intros N Hp. apply run_other_items; [|exact Hp].
  intros ev Hev. exists i. split; [|exact N].
  unfold handleGenerateMetadataForOne in Hev.
  destruct (find_by_id i imageFiles); [|now apply elem_of_nil in Hev].
  apply elem_of_cons in Hev as [->|Hev]; [reflexivity|].
  apply elem_of_cons in Hev as [->|Hev]; [|now apply elem_of_nil in Hev].
  now destruct (analyze n (file i0)).
Qed.

(** X11. One analysis run to its end, with nothing else in between,
    changes the item analysed and no other: on success the item is
    [SUCCESS] with the new metadata (whatever it held before) and no
    error; on failure it is [ERROR] with the message and keeps the
    metadata it had.  For an identity that is not in the collection the
    handler does nothing. *)
Theorem X11_single_analysis :
  forall (analyze : nat -> File -> thrown + ImageMetadata)
         (st : list ImageFile) (n k : nat) (f : ImageFile),
    NoDup (map id st) -> st !! k = Some f ->
    run (handleGenerateMetadataForOne analyze st n (id f)) st
    = <[k := settle f (analyze n (file f))]> st
    /\ (forall i, i ∉ map id st ->
        handleGenerateMetadataForOne analyze st n i = []).
Proof.
  intros analyze st n k f ND Hk. split.
  - assert (F : find_by_id (id f) st = Some f).
    { apply find_by_id_NoDup; [exact ND|]. apply list_elem_of_lookup. eauto. }
    apply list_eq. intros j. destruct (decide (j = k)) as [->|N].
    + rewrite list_lookup_insert_eq by (now apply lookup_lt_Some in Hk).
      now apply run_one_analysis_at.
    + rewrite list_lookup_insert_ne by congruence.
      destruct (st !! j) as [g|] eqn:Hj.
      * apply run_one_analysis_other; [|exact Hj].
        intros E. apply N. now apply (NoDup_id_lookup st j k f g).
      * unfold handleGenerateMetadataForOne. rewrite F.
        destruct (analyze n (file f)); simpl;
          unfold analysis_started, analysis_succeeded, analysis_failed,
            updateImageFile;
          now rewrite !list_lookup_fmap, Hj.
  - intros i Hi. unfold handleGenerateMetadataForOne.
    now rewrite (find_by_id_absent i st Hi).
Qed.

Lemma X11_witness :
  let st := run (firstn 3 regenerate_session) [] in
  NoDup (map id st)
  /\ run (handleGenerateMetadataForOne
            (fun _ _ => inl (ErrorObject analyze_message)) st 0 (lit "id-0")) st
     = [sample_item 0 (lit "a.png")
          (Some (sample_metadata (lit "elf") [lit "b"])) ERROR
          (Some analyze_message)].
Proof.
  intros st.
  assert (ND : NoDup (map id st))
    by (apply (bool_decide_unpack _); vm_compute; exact I).
  split; [exact ND|].
  destruct (X11_single_analysis
              (fun _ _ => inl (ErrorObject analyze_message)) st 0 0
              (sample_item 0 (lit "a.png")
                 (Some (sample_metadata (lit "elf") [lit "b"])) SUCCESS None)
              ND eq_refl) as [H _].
  exact H.
Defined.

(** ** What "Generate All" leaves behind *)

Lemma run_app evs1 evs2 st : run (evs1 ++ evs2) st = run evs2 (run evs1 st).
Proof. unfold run. apply fold_left_app. Qed.

Lemma settle_id g r : id (settle g r) = id g.
Proof. now destruct r. Qed.

Section GenerateAllResult.
Variable analyze : nat -> File -> thrown + ImageMetadata.
Variable imageFiles : list ImageFile.
Hypothesis ids_distinct : NoDup (map id imageFiles).

(** The rest of the loop does not touch an item whose identity is not
    among the items it analyses. *)
Lemma loop_run_others rest n st (p : nat) (g : ImageFile) :
  (forall f, f ∈ rest -> f ∈ imageFiles) ->
  (forall f, f ∈ rest -> needs_analysis (status f) = true -> id f <> id g) ->
  st !! p = Some g ->
  run (generateAll_loop analyze imageFiles rest n) st !! p = Some g.
Proof.
  intros Hsub Hne Hp. apply run_other_items; [|exact Hp].
  destruct (generateAll_loop_spec analyze imageFiles rest n Hsub) as (_ & _ & C).
  intros ev Hev. destruct (C ev Hev) as (f & Hf & Nf & Ef).
  exists (id f). split; [exact Ef|]. intros E. now apply (Hne f Hf Nf).
Qed.

Lemma loop_run_at r1 : forall r2 f n st (p : nat) (g : ImageFile),
  (forall h, h ∈ r1 ++ f :: r2 -> h ∈ imageFiles) ->
  NoDup (map id (r1 ++ f :: r2)) ->
  needs_analysis (status f) = true ->
  st !! p = Some g -> id g = id f ->
  run (generateAll_loop analyze imageFiles (r1 ++ f :: r2) n) st !! p
  = Some (settle g (analyze (n + analyses r1) (file f))).
Proof.
  induction r1 as [|h r1 IH]; intros r2 f n st p g Hsub ND Nf Hp E.
  - simpl. rewrite Nf, run_app. unfold analyses. simpl. rewrite Nat.add_0_r.
    apply loop_run_others.
    + intros h Hh. apply Hsub. now right.
    + intros h Hh _ Eh. simpl in ND. apply NoDup_cons in ND as [Hnot _].
      apply Hnot. rewrite settle_id, E in Eh. rewrite <- Eh.
      apply list_elem_of_In, in_map. now apply list_elem_of_In.
    + apply run_one_analysis_at; [|exact Hp | exact E].
      apply find_by_id_NoDup; [exact ids_distinct|]. apply Hsub. left.
  - assert (Hsub' : forall x, x ∈ r1 ++ f :: r2 -> x ∈ imageFiles)
      by (intros x Hx; apply Hsub; now right).
    simpl in ND. apply NoDup_cons in ND as [Hnot ND].
    assert (Nh : id g <> id h).
    { intros Eh. apply Hnot. rewrite <- Eh, E.
      apply list_elem_of_In, in_map, in_or_app. right. now left. }
    simpl. destruct (needs_analysis (status h)) eqn:Nn.
    + rewrite run_app.
      rewrite (IH r2 f (S n) _ p g Hsub' ND Nf); [|now apply run_one_analysis_other|exact E].
      unfold analyses. simpl. rewrite Nn. simpl. do 3 f_equal. lia.
    + rewrite (IH r2 f n st p g Hsub' ND Nf Hp E).
      unfold analyses. simpl. now rewrite Nn.
Qed.
End GenerateAllResult.

(** X12. With distinct identities and nothing else in between,
    "Generate All" leaves every item that was [IDLE] or [ERROR] settled
    by its own analysis (the analyses being numbered in collection
    order), and every other item, a [LOADING] one included, as it was:
    afterwards no item is [IDLE]. *)
Theorem X12_generate_all_result :
  forall (analyze : nat -> File -> thrown + ImageMetadata)
         (imageFiles : list ImageFile) (k : nat) (f : ImageFile),
    NoDup (map id imageFiles) -> imageFiles !! k = Some f ->
    run (handleGenerateAllMetadata analyze imageFiles) imageFiles !! k
    = Some (if needs_analysis (status f)
            then settle f (analyze (analyses (take k imageFiles)) (file f))
            else f)
    /\ (forall g,
        run (handleGenerateAllMetadata analyze imageFiles) imageFiles !! k
        = Some g -> status g <> IDLE).
Proof.
  intros analyze imageFiles k f ND Hk.
  assert (H : run (handleGenerateAllMetadata analyze imageFiles) imageFiles !! k
              = Some (if needs_analysis (status f)
                      then settle f (analyze (analyses (take k imageFiles)) (file f))
                      else f)).
  { unfold handleGenerateAllMetadata.
    destruct (needs_analysis (status f)) eqn:N.
    - pose proof (take_drop_middle imageFiles k f Hk) as M.
      rewrite <- M at 2.
      rewrite (loop_run_at analyze imageFiles ND (take k imageFiles)
                 (drop (S k) imageFiles) f 0 imageFiles k f);
        [reflexivity | | | exact N | exact Hk | reflexivity].
      + now rewrite M.
      + now rewrite M.
    - apply loop_run_others; [auto | | exact Hk].
      intros h Hh Nh E.
      assert (h = f).
      { apply (NoDup_id_inj imageFiles); auto. apply list_elem_of_lookup. eauto. }
      subst h. congruence. }
  split; [exact H|].
  intros g Hg. rewrite H in Hg. injection Hg as <-.
  destruct (needs_analysis (status f)) eqn:N.
  - destruct (analyze _ _); discriminate.
  - intros E. rewrite E in N. discriminate.
Qed.

Lemma X12_witness :
  let imageFiles :=
    [ sample_item 0 (lit "a.png") None IDLE None;
      sample_item 1 (lit "b.png")
        (Some (sample_metadata (lit "elf") [lit "b"])) SUCCESS None;
      sample_item 2 (lit "c.png") None ERROR (Some analyze_message) ] in
  let analyze := fun (n : nat) (_ : File) =>
    if (n =? 0)%nat then inl (ErrorObject parse_message)
    else inr (sample_metadata (lit "orc") [lit "c"]) in
  NoDup (map id imageFiles)
  /\ run (handleGenerateAllMetadata analyze imageFiles) imageFiles !! 2%nat
     = Some (sample_item 2 (lit "c.png")
               (Some (sample_metadata (lit "orc") [lit "c"])) SUCCESS None).
Proof.
  intros imageFiles analyze.
  assert (ND : NoDup (map id imageFiles))
    by (apply (bool_decide_unpack _); vm_compute; exact I).
  split; [exact ND|].
  destruct (X12_generate_all_result analyze imageFiles 2
              (sample_item 2 (lit "c.png") None ERROR (Some analyze_message))
              ND eq_refl) as [H _].
  exact H.
Defined.

Lemma hasUnprocessedFiles_analyses (l : list ImageFile) :
  hasUnprocessedFiles l = false <-> analyses l = 0%nat.
Proof.
  unfold hasUnprocessedFiles, analyses, needs_analysis.
  induction l as [|f l IH]; simpl; [tauto|].
  destruct (AppStatus_eqb (status f) IDLE || AppStatus_eqb (status f) ERROR);
    simpl; [split; discriminate | apply IH].
Qed.

Lemma generateAll_loop_length analyze imageFiles rest : forall n,
  (forall f, f ∈ rest -> f ∈ imageFiles) ->
  length (generateAll_loop analyze imageFiles rest n)
  = (2 * analyses rest)%nat.
Proof.
  induction rest as [|f rest IH]; intros n Hsub; [reflexivity|].
  assert (Hrest : forall g, g ∈ rest -> g ∈ imageFiles)
    by (intros g Hg; apply Hsub; now right).
  unfold analyses. simpl. destruct (needs_analysis (status f)) eqn:N.
  - destruct (handleGenerateMetadataForOne_elem analyze imageFiles f n)
      as (ev & -> & _); [apply Hsub; left|].
    simpl. rewrite (IH (S n) Hrest). unfold analyses. lia.
  - rewrite (IH n Hrest). reflexivity.
Qed.

(** X13. "Generate All" makes no update exactly when no item is [IDLE]
    or [ERROR], the condition [hasUnprocessedFiles] on which its button
    is enabled; otherwise it makes two updates for each such item, one
    when its analysis starts and one when it ends. *)
Theorem X13_generate_all_enabled :
  forall (analyze : nat -> File -> thrown + ImageMetadata)
         (imageFiles : list ImageFile),
    (handleGenerateAllMetadata analyze imageFiles = []
     <-> hasUnprocessedFiles imageFiles = false)
    /\ length (started (handleGenerateAllMetadata analyze imageFiles))
       = analyses imageFiles
    /\ length (handleGenerateAllMetadata analyze imageFiles)
       = (2 * analyses imageFiles)%nat.
Proof.
  intros analyze imageFiles. unfold handleGenerateAllMetadata.
  destruct (generateAll_loop_spec analyze imageFiles imageFiles 0)
    as (A & _ & _); [auto|].
  pose proof (generateAll_loop_length analyze imageFiles imageFiles 0
                ltac:(auto)) as L.
  split; [|split].
  - rewrite hasUnprocessedFiles_analyses.
    destruct (generateAll_loop analyze imageFiles imageFiles 0) as [|ev evs].
    + simpl in L. split; [lia | reflexivity].
    + simpl in L. split; [discriminate | lia].
  - rewrite A. unfold analyses. now rewrite length_map.
  - exact L.
Qed.

(** ** Edits made in a card *)

(** X16. An edit in the card of an item that has metadata replaces the
    one field edited, with the text as typed (the filename is not cleaned
    and may be empty), and leaves the other fields, the status and the
    error of the item and every other item as they were; the card of an
    item without metadata edits nothing. *)
Theorem X16_card_edit :
  forall (st : list ImageFile) (k : nat) (f : ImageFile) (fld : field)
         (v : jsstring),
    NoDup (map id st) -> st !! k = Some f ->
    (forall md, metadata f = Some md ->
        card_edit k (EditField fld v) st
        = <[k := with_metadata f
                   {| filename := match fld with Filename => v | _ => filename md end;
                      title := match fld with Title => v | _ => title md end;
                      description := match fld with
                                     | Description => v
                                     | _ => description md
                                     end;
                      tags := tags md |}]> st
        /\ card_edit k (EditTags v) st
           = <[k := with_metadata f
                      {| filename := filename md; title := title md;
                         description := description md;
                         tags := parse_tags v |}]> st)
    /\ (metadata f = None ->
        card_edit k (EditField fld v) st = st
        /\ card_edit k (EditTags v) st = st).
Proof.
  intros st k f fld v ND Hk. split.
  - intros md M. unfold card_edit. rewrite Hk.
    unfold handleInputChange, handleTagsChange, handleMetadataChange. rewrite M.
    rewrite !(updateImageFile_insert st k f _ ND Hk).
    split; [destruct fld|]; reflexivity.
  - intros M. unfold card_edit. rewrite Hk.
    unfold handleInputChange, handleTagsChange. rewrite M. split; reflexivity.
Qed.

Lemma X16_witness :
  let st := run (firstn 3 regenerate_session) [] in
  NoDup (map id st)
  /\ card_edit 0 (EditField Filename (lit "My File!")) st
     = [sample_item 0 (lit "a.png")
          (Some (sample_metadata (lit "My File!") [lit "b"])) SUCCESS None].
Proof.
  intros st.
  assert (ND : NoDup (map id st))
    by (apply (bool_decide_unpack _); vm_compute; exact I).
  split; [exact ND|].
  destruct (X16_card_edit st 0
              (sample_item 0 (lit "a.png")
                 (Some (sample_metadata (lit "elf") [lit "b"])) SUCCESS None)
              Filename (lit "My File!") ND eq_refl) as [H _].
  destruct (H (sample_metadata (lit "elf") [lit "b"]) eq_refl) as [E _].
  exact E.
Defined.

(** ** More on bulk tags *)

Lemma filter_all {A} (p : A -> bool) (l : list A) :
  (forall x, In x l -> p x = true) -> List.filter p l = l.
Proof.
  induction l as [|x l IH]; intros H; [reflexivity|]. simpl.
  rewrite (H x (or_introl eq_refl)). f_equal. apply IH.
  intros y Hy. apply H. now right.
Qed.

Lemma dedup_first_NoDup (l : list jsstring) : NoDup l -> dedup_first l = l.
Proof.
  induction 1 as [|x l Hx Hl IH]; [reflexivity|]. simpl. rewrite IH. f_equal.
  apply filter_all. intros y Hy. apply negb_true_iff, bool_decide_eq_false.
  intros ->. apply Hx. now apply list_elem_of_In.
Qed.

Lemma dedup_first_app (a b : list jsstring) :
  dedup_first (a ++ b)
  = dedup_first a
    ++ dedup_first
         (List.filter (fun y => negb (bool_decide (y ∈ dedup_first a))) b).
Proof.
  rewrite <- (new_Set_dedup_first (a ++ b)). unfold new_Set.
  rewrite fold_left_app. fold (new_Set a).
  now rewrite new_Set_dedup_first, fold_Set_add.
Qed.

(** X18. When the bulk operation has at least one candidate, the new
    tag list of an item in [SUCCESS] status has no duplicate and holds
    the tags the item had and the candidates, and nothing else.  If the
    item's tags had no duplicate they stay where they were, followed by
    the candidates that are new, once each, in the order of the input. *)
Theorem X18_bulk_tags_result :
  forall (customTagsInput : jsstring) (prevFiles : list ImageFile) (k : nat)
         (f : ImageFile) (md : ImageMetadata),
    parse_tags customTagsInput <> [] ->
    prevFiles !! k = Some f -> status f = SUCCESS -> metadata f = Some md ->
    exists ts,
      handleApplyCustomTags customTagsInput prevFiles !! k
      = Some (with_metadata f {| filename := filename md; title := title md;
                                 description := description md; tags := ts |})
      /\ NoDup ts
      /\ (forall t, t ∈ ts <-> t ∈ tags md \/ t ∈ parse_tags customTagsInput)
      /\ (NoDup (tags md) ->
          ts = tags md
               ++ dedup_first
                    (List.filter (fun t => negb (bool_decide (t ∈ tags md)))
                                 (parse_tags customTagsInput))).
Proof.
  intros input prev k f md Hne Hk Hs Hm.
  exists (dedup_first (tags md ++ parse_tags input)).
  rewrite handleApplyCustomTags_cases.
  rewrite bool_decide_eq_false_2 by exact Hne.
  split; [|split; [apply NoDup_dedup_first | split]].
  - rewrite list_lookup_fmap, Hk. simpl. f_equal.
    unfold spec_merge, with_metadata. now rewrite Hs, Hm.
  - intros t. now rewrite elem_of_dedup_first, elem_of_app.
  - intros ND. rewrite dedup_first_app. now rewrite (dedup_first_NoDup _ ND).
Qed.

Lemma X18_witness :
  let prevFiles := run (firstn 3 regenerate_session) [] in
  parse_tags (lit "project-x, b ,project-x") <> []
  /\ exists ts,
       handleApplyCustomTags (lit "project-x, b ,project-x") prevFiles !! 0%nat
       = Some (with_metadata
                 (sample_item 0 (lit "a.png")
                    (Some (sample_metadata (lit "elf") [lit "b"])) SUCCESS None)
                 (sample_metadata (lit "elf") ts))
       /\ ts = [lit "b"; lit "project-x"].
Proof.
  intros prevFiles.
  assert (Hne : parse_tags (lit "project-x, b ,project-x") <> [])
    by (vm_compute; discriminate).
  split; [exact Hne|].
  destruct (X18_bulk_tags_result (lit "project-x, b ,project-x") prevFiles 0
              (sample_item 0 (lit "a.png")
                 (Some (sample_metadata (lit "elf") [lit "b"])) SUCCESS None)
              (sample_metadata (lit "elf") [lit "b"])
              Hne eq_refl eq_refl eq_refl) as (ts & H & _ & _ & E).
  exists ts. split; [exact H|].
  rewrite E; [vm_compute; reflexivity|].
  repeat constructor. apply not_elem_of_nil.
Defined.

(** X19. The bulk operation, whatever its input, never adds or removes
    an item and never changes an item's identity, file, preview, status
    or error, nor the filename, title or description of its metadata. *)
Theorem X19_bulk_tags_preserves :
  forall (customTagsInput : jsstring) (prevFiles : list ImageFile),
    let nextFiles := handleApplyCustomTags customTagsInput prevFiles in
    map (fun f => (id f, file f, previewUrl f, status f, error f)) nextFiles
    = map (fun f => (id f, file f, previewUrl f, status f, error f)) prevFiles
    /\ map (fun f => (fun md => (filename md, title md, description md))
                       <$> metadata f) nextFiles
       = map (fun f => (fun md => (filename md, title md, description md))
                         <$> metadata f) prevFiles.
Proof.
  intros input prev nextFiles. subst nextFiles.
  rewrite handleApplyCustomTags_cases.
  destruct (bool_decide _); [split; reflexivity|].
  rewrite !map_map.
  split; apply map_ext; intros [i fl p m s e]; unfold spec_merge; simpl;
    destruct s; try reflexivity; destruct m; reflexivity.
Qed.

(** ** More on the export *)

Section ExportAccounting.
Variable toJpeg : jsstring -> option jsstring.
Variable embed : Zeroth -> jsstring -> option Blob.

Lemma export_loop_None files : forall zip log,
  export_loop toJpeg embed files zip log = None ->
  exists f, f ∈ files /\ metadata f <> None /\ toJpeg (previewUrl f) = None.
Proof.
  induction files as [|g rest IH]; intros zip log H; simpl in H; [discriminate|].
  assert (Hrest : forall zip' log',
             export_loop toJpeg embed rest zip' log' = None ->
             exists f, f ∈ g :: rest /\ metadata f <> None
                       /\ toJpeg (previewUrl f) = None).
  { intros zip' log' H'. destruct (IH _ _ H') as (f & Hf & M & T).
    exists f. split; [now right | auto]. }
  destruct (metadata g) as [md|] eqn:M; [|now apply (Hrest _ _ H)].
  destruct (toJpeg (previewUrl g)) as [url|] eqn:T.
  - destruct (embed (zeroth_of md) url); now apply (Hrest _ _ H).
  - exists g. split; [left|]. split; [congruence | exact T].
Qed.

Lemma export_loop_log files : forall zip log zip' log',
  export_loop toJpeg embed files zip log = Some (zip', log') ->
  log' = log ++ embed_failures toJpeg embed files
  /\ (Forall (fun f => metadata f <> None) files ->
      (length (embedded_entries toJpeg embed files)
       + length (embed_failures toJpeg embed files) = length files)%nat).
Proof.
  induction files as [|g rest IH]; intros zip log zip' log' H; simpl in H.
  - injection H as _ <-. split; [now rewrite app_nil_r | reflexivity].
  - unfold embed_failures, embed_failure, embedded_entries, embedded_entry.
    simpl. destruct (metadata g) as [md|] eqn:M; simpl.
    + destruct (toJpeg (previewUrl g)) as [url|]; simpl; [|discriminate].
      destruct (embed (zeroth_of md) url); simpl;
        destruct (IH _ _ _ _ H) as [L C].
      * split; [exact L|]. intros F. inversion F; subst.
        simpl. f_equal. now apply C.
      * split; [now rewrite L, <- app_assoc|]. intros F. inversion F; subst.
        simpl. rewrite Nat.add_succ_r. f_equal. now apply C.
    + destruct (IH _ _ _ _ H) as [L C]. split; [exact L|].
      intros F. inversion F; subst. congruence.
Qed.
End ExportAccounting.

Lemma exportable_filter (imageFiles : list ImageFile) :
  Forall (fun f => metadata f <> None) (List.filter exportable imageFiles).
Proof.
  apply Forall_forall. intros f Hf.
  apply list_elem_of_In, List.filter_In in Hf as [_ E].
  unfold exportable in E. apply andb_true_iff in E as [_ E].
  apply bool_decide_eq_true in E as [md E]. congruence.
Qed.


(** X21. In an export that completes, every item that was to be
    exported is either stored in the archive build-up or reported in the
    log: the log holds the file names of the items whose embedding
    failed, in collection order, and the embedded and the logged items
    together are as many as the items in [SUCCESS] status with
    metadata. *)
Theorem X21_export_accounting :
  forall (toJpeg : jsstring -> option jsstring)
         (embed : Zeroth -> jsstring -> option Blob)
         (imageFiles : list ImageFile) (isZipping : bool)
         (zip : gmap jsstring Blob) (log : list jsstring),
    processAndDownloadAll toJpeg embed true true imageFiles isZipping
    = (Download zip log, false) ->
    log = embed_failures toJpeg embed (List.filter exportable imageFiles)
    /\ (length (embedded_entries toJpeg embed
                  (List.filter exportable imageFiles))
        + length log
        = length (List.filter exportable imageFiles))%nat.
Proof.
  intros toJpeg embed imageFiles isZipping zip log H.
  unfold processAndDownloadAll in H. simpl in H.
  destruct (export_loop _ _ _ _ _) as [[zip' log']|] eqn:L; [|discriminate].
  injection H as <- <-.
  destruct (export_loop_log toJpeg embed _ _ _ _ _ L) as [E C].
  simpl in E. subst log'. split; [reflexivity|].
  apply C, exportable_filter.
Qed.

Lemma X21_witness :
  let imageFiles := sample_export (lit "elf") (lit "orc") in
  processAndDownloadAll (sample_toJpeg []) (sample_embed [lit "blob:0"])
    true true imageFiles false
  = (Download {[ lit "orc.jpg" := toUcs2Bytes (lit "c") ]} [lit "a.png"], false)
  /\ [lit "a.png"]
     = embed_failures (sample_toJpeg []) (sample_embed [lit "blob:0"])
         (List.filter exportable imageFiles).
Proof.
  intros imageFiles.
  assert (H : processAndDownloadAll (sample_toJpeg [])
                (sample_embed [lit "blob:0"]) true true imageFiles false
              = (Download {[ lit "orc.jpg" := toUcs2Bytes (lit "c") ]}
                          [lit "a.png"], false))
    by (vm_compute; reflexivity).
  split; [exact H|].
  exact (proj1 (X21_export_accounting _ _ _ _ _ _ H)).
Defined.







(** X24. With the libraries loaded, an export ends without an archive
    and with [isZipping] left set exactly when the conversion to JPEG
    fails for some item in [SUCCESS] status with metadata; failures of
    the embedding never have this effect, and in every other case
    [isZipping] is reset. *)
Theorem X24_export_completes :
  forall (toJpeg : jsstring -> option jsstring)
         (embed : Zeroth -> jsstring -> option Blob)
         (imageFiles : list ImageFile) (isZipping generateAsync_ok : bool),
    let result :=
      processAndDownloadAll toJpeg embed true generateAsync_ok imageFiles
        isZipping in
    (result = (Unhandled, true)
     <-> exists f, f ∈ imageFiles /\ exportable f = true
                   /\ toJpeg (previewUrl f) = None)
    /\ (result <> (Unhandled, true) -> snd result = false).
Proof.
  intros toJpeg embed imageFiles isZipping ok result. subst result.
  unfold processAndDownloadAll. simpl.
  destruct (export_loop toJpeg embed (List.filter exportable imageFiles) ∅ [])
    as [[zip log]|] eqn:L.
  - split.
    + split; [destruct ok; discriminate|].
      intros (f & Hf & E & T).
      rewrite (export_loop_decode_failure toJpeg embed _ f) in L;
        [discriminate | | | exact T].
      * apply list_elem_of_In, List.filter_In.
        split; [now apply list_elem_of_In | exact E].
      * unfold exportable in E. apply andb_true_iff in E as [_ E].
        apply bool_decide_eq_true in E as [md E]. congruence.
    + intros _. now destruct ok.
  - split; [|intros N; now destruct N].
    split; [|reflexivity]. intros _.
    destruct (export_loop_None toJpeg embed _ _ _ L) as (f & Hf & M & T).
    apply list_elem_of_In, List.filter_In in Hf as [Hf E].
    exists f. split; [now apply list_elem_of_In | auto].
Qed.

(** X20. With a library missing the export does nothing, and leaves
    [isZipping] alone.  With the libraries loaded and no item in
    [SUCCESS] status ([hasSuccessfulFiles] is false and the download
    button disabled) it produces an archive without entries. *)
Theorem X20_export_nothing_to_do :
  forall (toJpeg : jsstring -> option jsstring)
         (embed : Zeroth -> jsstring -> option Blob)
         (imageFiles : list ImageFile) (isZipping generateAsync_ok : bool),
    processAndDownloadAll toJpeg embed false generateAsync_ok imageFiles
      isZipping = (LibraryAlert, isZipping)
    /\ (hasSuccessfulFiles imageFiles = false ->
        processAndDownloadAll toJpeg embed true true imageFiles isZipping
        = (Download ∅ [], false)).
Proof.
  intros toJpeg embed imageFiles isZipping ok. split; [reflexivity|].
  intros H. unfold processAndDownloadAll. simpl.
  replace (List.filter exportable imageFiles) with (@nil ImageFile);
    [reflexivity|].
  symmetry. apply filter_none. intros f Hf.
  unfold hasSuccessfulFiles in H.
  unfold exportable. apply andb_false_iff. left.
  destruct (AppStatus_eqb (status f) SUCCESS) eqn:E; [|reflexivity].
  rewrite <- H. symmetry. apply existsb_exists. eauto.
Qed.

Lemma X20_witness :
  hasSuccessfulFiles (run (firstn 2 regenerate_session) []) = false
  /\ processAndDownloadAll (sample_toJpeg []) (sample_embed []) true true
       (run (firstn 2 regenerate_session) []) false
     = (Download ∅ [], false).
Proof.
  assert (H : hasSuccessfulFiles (run (firstn 2 regenerate_session) []) = false)
    by (vm_compute; reflexivity).
  split; [exact H|].
  exact (proj2 (X20_export_nothing_to_do (sample_toJpeg []) (sample_embed [])
                  (run (firstn 2 regenerate_session) []) false true) H).
Defined.

(** ** Upload *)

Lemma imap_fields {A} (g : nat -> A -> ImageFile) (l : list A) :
  (forall k x, metadata (g k x) = None /\ status (g k x) = IDLE
               /\ error (g k x) = None) ->
  Forall (fun f => metadata f = None /\ status f = IDLE /\ error f = None)
         (imap g l).
Proof. intros H. now apply Forall_imap_all. Qed.

Lemma map_file_imap {A} (g : nat -> A -> ImageFile) (h : A -> File)
    (l : list A) :
  (forall k x, file (g k x) = h x) -> map file (imap g l) = map h l.
Proof.
  revert g. induction l as [|x l IH]; intros g H; [reflexivity|].
  simpl. rewrite H. f_equal. apply IH. intros k y. apply H.
Qed.

(** X25. An upload keeps the items there are, in place, and appends one
    item for each selected file whose MIME type starts with [image/], in
    the order of the selection: [IDLE], without metadata or error, with
    the identity generated for it.  A file of another type is never
    added, and a selection without an image leaves the collection as it
    was. *)
Theorem X25_upload :
  forall (selectedFiles : list File) (fresh : nat -> jsstring * jsstring)
         (prev : list ImageFile),
    exists newFiles,
      handleFileSelect selectedFiles fresh prev = prev ++ newFiles
      /\ map file newFiles
         = List.filter (fun f => startsWith (lit "image/") (type f)) selectedFiles
      /\ map id newFiles = new_ids selectedFiles fresh
      /\ Forall (fun f => metadata f = None /\ status f = IDLE
                          /\ error f = None) newFiles
      /\ (forallb (fun f => negb (startsWith (lit "image/") (type f)))
                  selectedFiles = true ->
          handleFileSelect selectedFiles fresh prev = prev).
Proof.
  intros sel fresh prev. unfold handleFileSelect. eexists.
  split; [reflexivity|]. split; [|split; [|split]].
  - rewrite (map_file_imap _ (fun x => x)); [apply map_id | reflexivity].
  - unfold new_ids. now apply map_id_imap.
  - now apply imap_fields.
  - intros H. rewrite filter_none; [apply app_nil_r|].
    intros f Hf. rewrite forallb_forall in H. specialize (H f Hf).
    now apply negb_true_iff in H.
Qed.
